(** * tclIndexObj.c: keyword look-up with a cached index, and the
      "wrong # args" message

    A shallow embedding of [generic/tclIndexObj.c]:
    - [Tcl_GetIndexFromObjStruct] and [Tcl_GetIndexFromObj], which look a
      value's string up in a NULL-terminated table of keywords and cache the
      index found in the value's internal representation;
    - the operations of the "index" object type ([UpdateStringOfIndex],
      [DupIndex], [SetIndexFromAny]);
    - [Tcl_WrongNumArgs], which builds the usage message.

    Conventions of the embedding.
    - A C string is the [string] of its bytes before the terminating NUL:
      [EmptyString] is a pointer at the NUL, [String c r] a pointer at the
      byte [c] followed by [r].
    - An address is a [Z].  Memory is read one [char *] cell at a time: a
      cell holds [None] (the NULL pointer) or the C string it points at.
    - [int] values are [Z]; tables and argument vectors are far shorter
      than [INT_MAX], so no counter of the code overflows.  The product
      [offset * index] of the macro [STRING_AT] is a product of two [int]s
      and is modelled with its wrap-around ([int_wrap]); what is proved of
      an entry read by its index assumes that the product fits an [int]
      ([in_int]).
    - A counted array ([objc]/[objv]) is the list of the elements the code
      may read, its count the length of the list.
    - Loops over a table are bounded by the NULL sentinel found in memory;
      they take a [fuel] and return [None] when it runs out. *)

From Stdlib Require Import ZArith List Bool Ascii String Lia.
Import ListNotations.

#[local] Open Scope string_scope.
#[local] Open Scope Z_scope.

(** ** Results of the Tcl C API *)

(** Modelled from the spec: the status codes of tcl.h, which is not part of
    this file: success and the non-success status of a failed look-up. *)
Definition TCL_OK : Z := 0.
Definition TCL_ERROR : Z := 1.

(** The one-character string holding the double quote, and the test of a
    pointer against NULL. *)
Definition dquote : string := String "034"%char EmptyString.

Definition non_null {A : Type} (p : option A) : bool :=
  match p with
  | Some _ => true
  | None => false
  end.

(** ** Memory and the table macros *)

(** The [char *] stored at an address: [None] is NULL. *)
Definition Mem : Type := Z -> option string.

(** The values of a 32-bit [int], and the [int] a machine leaves for an
    arithmetic result [z]: [z] wrapped into that range. *)
Definition in_int (z : Z) : Prop := -2147483648 <= z <= 2147483647.

Definition int_wrap (z : Z) : Z :=
  (z + 2147483648) mod 4294967296 - 2147483648.

(** [STRING_AT]: the cell at [table] plus the [int] product of [offset]
    and [index]. *)
Definition STRING_AT (m : Mem) (table offset index : Z) : option string :=
  m (table + int_wrap (offset * index)).

Definition NEXT_ENTRY (table offset : Z) : Z := table + offset * 1.

(** ** Values *)

(** [IndexRep]: the record an index object points at. *)
Record IndexRep : Type := mkIndexRep {
  tablePtr : Z;   (* pointer to the table of strings *)
  offset : Z;     (* offset between table entries *)
  index : Z       (* selected index into table *)
}.

(** Modelled from the spec: the cached structured form of a value
    ([typePtr] together with [internalRep.otherValuePtr] of tcl.h): no type,
    the index type with its record, or some other type of the interpreter. *)
Inductive InternalRep : Type :=
| NoType
| OtherType (name : string)
| IndexType (indexRep : IndexRep).

(** Modelled from the spec: [Tcl_Obj] of tcl.h, a value with its string
    form and its cached structured form.  [length] is the length of
    [bytes]. *)
Record Tcl_Obj : Type := mkObj {
  bytes : string;
  internalRep : InternalRep
}.

(** Modelled from the spec: the rewrite context ([ensembleRewrite] of
    tclInt.h).  [sourceObjs] is NULL or the array of the [numRemovedObjs]
    words the ensemble was invoked with; [numInsertedObjs] is the number of
    leading arguments the ensemble put in their place. *)
Record EnsembleRewrite : Type := mkRewrite {
  sourceObjs : option (list Tcl_Obj);
  numInsertedObjs : Z
}.

Definition numRemovedObjs (e : EnsembleRewrite) : Z :=
  match sourceObjs e with
  | None => 0
  | Some l => Z.of_nat (List.length l)
  end.

(** Modelled from the spec: the fields of [Interp] (tclInt.h) this file
    reads and writes: the result, the flags and the rewrite context. *)
Record Interp : Type := mkInterp {
  objResult : string;
  flags : Z;
  ensembleRewrite : EnsembleRewrite
}.

(** Modelled from the spec: the error channel, "set current result text"
    and "read current result text" ([Tcl_SetObjResult] and
    [Tcl_GetObjResult] of tclResult.c). *)
Definition Tcl_SetObjResult (interp : Interp) (s : string) : Interp :=
  {| objResult := s; flags := flags interp;
     ensembleRewrite := ensembleRewrite interp |}.

Definition Tcl_GetObjResult (interp : Interp) : string := objResult interp.

(** Modelled from the spec: [Tcl_GetStringFromObj] of tclObj.c, the string
    form of a value; its length comes with it. *)
Definition Tcl_GetStringFromObj (objPtr : Tcl_Obj) : string := bytes objPtr.

(** Modelled from the spec: [Tcl_AppendStringsToObj] of tclStringObj.c,
    called as [(objPtr, s1, ..., (char * ) NULL)]: the strings are appended up
    to the first NULL argument. *)
Fixpoint Tcl_AppendStringsToObj (objPtr : string) (args : list (option string))
  : string :=
  match args with
  | Some s :: rest => Tcl_AppendStringsToObj (objPtr ++ s) rest
  | _ => objPtr
  end.

Definition EXPAND_OF (m : Mem) (indexRep : IndexRep) : option string :=
  STRING_AT m (tablePtr indexRep) (offset indexRep) (index indexRep).

(** ** The look-up *)

(** How the inner loop over [p1] (the key) and [p2] (an entry) ends:
    both at their NUL, the key at its NUL first, or neither. *)
Inductive KeyCompare : Type := ExactMatch | Abbreviation | Mismatch.

Fixpoint compare_key (p1 p2 : string) : KeyCompare :=
  match p1, p2 with
  | EmptyString, EmptyString => ExactMatch
  | EmptyString, String _ _ => Abbreviation
  | String _ _, EmptyString => Mismatch
  | String c1 r1, String c2 r2 =>
      if Ascii.eqb c1 c2 then compare_key r1 r2 else Mismatch
  end.

(** How the scan of the table ends: at [goto done] with [index], or at the
    sentinel with [index] and [numAbbrev]. *)
Inductive ScanExit : Type :=
| GotoDone (index : Z)
| LoopEnd (index numAbbrev : Z).

Fixpoint scan_table (m : Mem) (key : string) (offset : Z) (fuel : nat)
    (entryPtr i index numAbbrev : Z) : option ScanExit :=
  match fuel with
  | O => None
  | S fuel' =>
      match m entryPtr with
      | None => Some (LoopEnd index numAbbrev)
      | Some entry =>
          match compare_key key entry with
          | ExactMatch => Some (GotoDone i)
          | Abbreviation =>
              scan_table m key offset fuel' (NEXT_ENTRY entryPtr offset)
                         (i + 1) i (numAbbrev + 1)
          | Mismatch =>
              scan_table m key offset fuel' (NEXT_ENTRY entryPtr offset)
                         (i + 1) index numAbbrev
          end
      end
  end.

(** The loop of the error path: the entries after the first one. *)
Fixpoint error_entries (m : Mem) (offset : Z) (fuel : nat)
    (entryPtr count : Z) (resultPtr : string) : option string :=
  match fuel with
  | O => None
  | S fuel' =>
      match m entryPtr with
      | None => Some resultPtr
      | Some entry =>
          let resultPtr' :=
            match m (NEXT_ENTRY entryPtr offset) with
            | None =>
                Tcl_AppendStringsToObj resultPtr
                  [Some (if 0 <? count then ", or " else " or "); Some entry]
            | Some _ =>
                Tcl_AppendStringsToObj resultPtr [Some ", "; Some entry]
            end in
          error_entries m offset fuel' (NEXT_ENTRY entryPtr offset)
                        (count + 1) resultPtr'
      end
  end.

Definition error_message (m : Mem) (fuel : nat) (key msg : string)
    (tablePtr offset numAbbrev : Z) : option string :=
  let resultPtr :=
    Tcl_AppendStringsToObj EmptyString
      [Some (if 1 <? numAbbrev then "ambiguous " else "bad "); Some msg;
       Some (" " ++ dquote); Some key; Some (dquote ++ ": must be ");
       STRING_AT m tablePtr offset 0] in
  error_entries m offset fuel (NEXT_ENTRY tablePtr offset) 0 resultPtr.

(** What a call leaves: the status, the integer stored at [indexPtr] (if
    any), the value, the interpreter, and how many [IndexRep] records were
    taken from [ckalloc]. *)
Record MatchResult : Type := mkResult {
  code : Z;
  indexOut : option Z;
  objOut : Tcl_Obj;
  interpOut : option Interp;
  ckallocs : nat
}.

(** The test of the cached record. *)
Definition cached_index (objPtr : Tcl_Obj) (tablePtr' offset' : Z)
  : option Z :=
  match internalRep objPtr with
  | IndexType indexRep =>
      if (tablePtr indexRep =? tablePtr') && (offset indexRep =? offset')
      then Some (index indexRep) else None
  | _ => None
  end.

(** The label [done]: the record of an index object is overwritten in
    place; any other value has its internal representation freed and gets a
    fresh record. *)
Definition match_done (interp : option Interp) (objPtr : Tcl_Obj)
    (tablePtr' offset' index' : Z) : MatchResult :=
  let indexRep := mkIndexRep tablePtr' offset' index' in
  match internalRep objPtr with
  | IndexType _ =>
      mkResult TCL_OK (Some index')
               (mkObj (bytes objPtr) (IndexType indexRep)) interp 0
  | _ =>
      mkResult TCL_OK (Some index')
               (mkObj (bytes objPtr) (IndexType indexRep)) interp 1
  end.

(** The label [error]. *)
Definition match_error (m : Mem) (fuel : nat) (interp : option Interp)
    (objPtr : Tcl_Obj) (key msg : string) (tablePtr' offset' numAbbrev : Z)
  : option MatchResult :=
  match interp with
  | None => Some (mkResult TCL_ERROR None objPtr None 0)
  | Some ip =>
      match error_message m fuel key msg tablePtr' offset' numAbbrev with
      | None => None
      | Some text =>
          Some (mkResult TCL_ERROR None objPtr
                         (Some (Tcl_SetObjResult ip text)) 0)
      end
  end.

Section Lookup.

(** [TCL_EXACT] comes from tcl.h and [sizeof (char * )] from the
    platform. *)
Variable TCL_EXACT : Z.
Variable sizeof_char_ptr : Z.

Definition exact_requested (flags' : Z) : bool :=
  negb (Z.land flags' TCL_EXACT =? 0).

Definition Tcl_GetIndexFromObjStruct (m : Mem) (fuel : nat)
    (interp : option Interp) (objPtr : Tcl_Obj) (tablePtr' offset' : Z)
    (msg : string) (flags' : Z) : option MatchResult :=
  match cached_index objPtr tablePtr' offset' with
  | Some index' => Some (mkResult TCL_OK (Some index') objPtr interp 0)
  | None =>
      let key := Tcl_GetStringFromObj objPtr in
      match key with
      | EmptyString =>
          match_error m fuel interp objPtr key msg tablePtr' offset' 0
      | String _ _ =>
          match scan_table m key offset' fuel tablePtr' 0 (-1) 0 with
          | None => None
          | Some (GotoDone index') =>
              Some (match_done interp objPtr tablePtr' offset' index')
          | Some (LoopEnd index' numAbbrev) =>
              if exact_requested flags' || negb (numAbbrev =? 1)
              then match_error m fuel interp objPtr key msg
                               tablePtr' offset' numAbbrev
              else Some (match_done interp objPtr tablePtr' offset' index')
          end
      end
  end.

Definition Tcl_GetIndexFromObj (m : Mem) (fuel : nat)
    (interp : option Interp) (objPtr : Tcl_Obj) (tablePtr' : Z)
    (msg : string) (flags' : Z) : option MatchResult :=
  match cached_index objPtr tablePtr' sizeof_char_ptr with
  | Some index' => Some (mkResult TCL_OK (Some index') objPtr interp 0)
  | None =>
      Tcl_GetIndexFromObjStruct m fuel interp objPtr tablePtr'
                                sizeof_char_ptr msg flags'
  end.

End Lookup.

(** ** The operations of the index type *)

(** [UpdateStringOfIndex]: the string representation becomes a copy of the
    table entry the record selects.  [None] where the C code reads through a
    NULL pointer or through a record that is not there. *)
Definition UpdateStringOfIndex (m : Mem) (objPtr : Tcl_Obj) : option Tcl_Obj :=
  match internalRep objPtr with
  | IndexType indexRep =>
      match EXPAND_OF m indexRep with
      | Some indexStr => Some (mkObj indexStr (IndexType indexRep))
      | None => None
      end
  | _ => None
  end.

(** [DupIndex]: the duplicate gets a copy of the record. *)
Definition DupIndex (srcPtr dupPtr : Tcl_Obj) : option Tcl_Obj :=
  match internalRep srcPtr with
  | IndexType srcIndexRep =>
      Some (mkObj (bytes dupPtr)
                  (IndexType (mkIndexRep (tablePtr srcIndexRep)
                                         (offset srcIndexRep)
                                         (index srcIndexRep))))
  | _ => None
  end.

(** [SetIndexFromAny]: always an error. *)
Definition SetIndexFromAny (interp : Interp) (objPtr : Tcl_Obj)
  : Z * Interp :=
  (TCL_ERROR,
   Tcl_SetObjResult interp
     "can't convert value to index except via Tcl_GetIndexFromObj API").

(** ** The usage message *)

Section WrongNumArgs.

(** [INTERP_ALTERNATE_WRONG_ARGS] comes from tclInt.h;
    [AVOID_HACKS_FOR_ITCL] is [true] when the macro is defined at
    compile time (by default it is not). *)
Variable INTERP_ALTERNATE_WRONG_ARGS : Z.
Variable AVOID_HACKS_FOR_ITCL : bool.

(** The list-quoting routines of tclUtil.c.  [Tcl_ScanCountedElement]
    returns the space the quoted element may need and the flags for the
    conversion; [Tcl_ConvertCountedElement] returns the quoted bytes. *)
Variable Tcl_ScanCountedElement : string -> Z * Z.
Variable Tcl_ConvertCountedElement : string -> Z -> string.

Definition MAY_QUOTE_WORD (isFirst : bool) : bool :=
  if AVOID_HACKS_FOR_ITCL then true else negb isFirst.

(** "Add the element, quoting it if necessary": the code shared by the
    two loops. *)
Definition append_element (objPtr : string) (isFirst : bool)
    (elemPtr : Tcl_Obj) : string :=
  let elementStr := Tcl_GetStringFromObj elemPtr in
  let elemLen := Z.of_nat (String.length elementStr) in
  let '(len, flags') := Tcl_ScanCountedElement elementStr in
  if MAY_QUOTE_WORD isFirst && negb (len =? elemLen)
  then objPtr ++ Tcl_ConvertCountedElement elementStr flags'
  else objPtr ++ elementStr.

(** The loop over [sourceObjs]; [objc] is the number of arguments left
    in [objv], [message] is NULL or the trailing message.  The state is
    the text built so far and [isFirst]. *)
Fixpoint rewrite_loop (sources : list Tcl_Obj) (objc : Z)
    (message : option string) (objPtr : string) (isFirst : bool)
  : string * bool :=
  match sources with
  | [] => (objPtr, isFirst)
  | src :: rest =>
      let objPtr1 := append_element objPtr isFirst src in
      let objPtr2 :=
        match rest with
        | _ :: _ => Tcl_AppendStringsToObj objPtr1 [Some " "]
        | [] =>
            if negb (objc =? 0) || non_null message
            then Tcl_AppendStringsToObj objPtr1 [Some " "]
            else objPtr1
        end in
      rewrite_loop rest objc message objPtr2 false
  end.

(** The loop over [objv]. *)
Fixpoint objv_loop (m : Mem) (objv : list Tcl_Obj)
    (message : option string) (objPtr : string) (isFirst : bool)
  : string * bool :=
  match objv with
  | [] => (objPtr, isFirst)
  | arg :: rest =>
      let objPtr1 :=
        match internalRep arg with
        | IndexType indexRep =>
            Tcl_AppendStringsToObj objPtr [EXPAND_OF m indexRep]
        | _ => append_element objPtr isFirst arg
        end in
      let objPtr2 :=
        match rest with
        | _ :: _ => Tcl_AppendStringsToObj objPtr1 [Some " "]
        | [] =>
            if non_null message
            then Tcl_AppendStringsToObj objPtr1 [Some " "]
            else objPtr1
        end in
      objv_loop m rest message objPtr2 false
  end.

Definition Tcl_WrongNumArgs (m : Mem) (interp : Interp)
    (objv : list Tcl_Obj) (message : option string) : Interp :=
  let objc := Z.of_nat (List.length objv) in
  let objPtr0 :=
    if negb (Z.land (flags interp) INTERP_ALTERNATE_WRONG_ARGS =? 0)
    then Tcl_GetObjResult interp ++ " or " ++ dquote
    else "wrong # args: should be " ++ dquote in
  let rewrite := ensembleRewrite interp in
  let '(objv1, (objPtr1, isFirst1)) :=
    match sourceObjs rewrite with
    | Some sources =>
        if numInsertedObjs rewrite <=? objc
        then
          let objv' := skipn (Z.to_nat (numInsertedObjs rewrite)) objv in
          let objc' := objc - numInsertedObjs rewrite in
          (objv', rewrite_loop sources objc' message objPtr0 true)
        else (objv, (objPtr0, true))
    | None => (objv, (objPtr0, true))
    end in
  let '(objPtr2, _) := objv_loop m objv1 message objPtr1 isFirst1 in
  let objPtr3 :=
    match message with
    | Some text => Tcl_AppendStringsToObj objPtr2 [Some text]
    | None => objPtr2
    end in
  let objPtr4 := Tcl_AppendStringsToObj objPtr3 [Some dquote] in
  Tcl_SetObjResult interp objPtr4.

End WrongNumArgs.

(** * Vocabulary of the specification *)

(** ** Tables in memory *)

(** The cells at [p], [p + offset], ... hold the entries [es], and the cell
    after the last one holds the NULL sentinel. *)
Fixpoint table_at (m : Mem) (p offset : Z) (es : list string) : Prop :=
  match es with
  | [] => m p = None
  | e :: rest => m p = Some e /\ table_at m (NEXT_ENTRY p offset) offset rest
  end.

(** [key] is a strict prefix of [entry]. *)
Definition abbreviates (key entry : string) : bool :=
  String.prefix key entry && negb (String.eqb key entry).

(** The number of entries [key] is a strict prefix of. *)
Definition count_abbrev (key : string) (es : list string) : nat :=
  List.length (filter (abbreviates key) es).

(** The scan of [scan_table], over the entries instead of the memory. *)
Fixpoint scan_list (key : string) (es : list string) (i index numAbbrev : Z)
  : ScanExit :=
  match es with
  | [] => LoopEnd index numAbbrev
  | entry :: rest =>
      match compare_key key entry with
      | ExactMatch => GotoDone i
      | Abbreviation => scan_list key rest (i + 1) i (numAbbrev + 1)
      | Mismatch => scan_list key rest (i + 1) index numAbbrev
      end
  end.

(** The index a scan yields when abbreviations are accepted. *)
Definition scan_index (x : ScanExit) : option Z :=
  match x with
  | GotoDone i => Some i
  | LoopEnd i n => if n =? 1 then Some i else None
  end.

(** A value is sound when its record, if it has one, holds the index that a
    look-up of its string in the record's table yields.  Values without a
    record are sound, and the look-up keeps values sound
    ([Tcl_GetIndexFromObjStruct_sound]). *)
Definition cache_sound (m : Mem) (objPtr : Tcl_Obj) : Prop :=
  forall r, internalRep objPtr = IndexType r ->
    bytes objPtr <> EmptyString /\
    exists fuel x,
      scan_table m (bytes objPtr) (offset r) fuel (tablePtr r) 0 (-1) 0
        = Some x /\
      scan_index x = Some (index r).

(** ** The text of the error message *)

(** The entries after the first, as the message lists them: [count] is the
    number of entries already listed after the first. *)
Fixpoint alternatives (count : Z) (es : list string) : string :=
  match es with
  | [] => EmptyString
  | [e] => (if 0 <? count then ", or " else " or ") ++ e
  | e :: rest => ", " ++ e ++ alternatives (count + 1) rest
  end.

(** "e0", "e0 or e1", "e0, e1, ..., or en". *)
Definition enumerate (es : list string) : string :=
  match es with
  | [] => EmptyString
  | [e0] => e0
  | [e0; e1] => e0 ++ " or " ++ e1
  | e0 :: rest =>
      e0 ++ fold_right String.append EmptyString
                       (map (fun e => ", " ++ e) (removelast rest))
         ++ ", or " ++ last rest EmptyString
  end.

(** The first word of the message. *)
Definition error_word (key : string) (es : list string) : string :=
  match key with
  | EmptyString => "bad "
  | String _ _ =>
      if (1 <? count_abbrev key es)%nat then "ambiguous " else "bad "
  end.

Definition lookup_error_text (key msg : string) (es : list string) : string :=
  error_word key es ++ msg ++ " " ++ dquote ++ key ++ dquote
    ++ ": must be " ++ enumerate es.

(** What the sentence "[bad] is used exactly when zero candidates matched"
    says of a message [text] for [key] and the entries [es]. *)
Definition bad_iff_no_candidate (text key : string) (es : list string)
  : Prop :=
  String.prefix "bad " text = true <-> count_abbrev key es = 0%nat.

(** ** The text of the usage message *)

Section UsageVocabulary.

Variable INTERP_ALTERNATE_WRONG_ARGS : Z.
Variable AVOID_HACKS_FOR_ITCL : bool.
Variable Tcl_ScanCountedElement : string -> Z * Z.
Variable Tcl_ConvertCountedElement : string -> Z -> string.

(** What the list-quoting routines say of a word: whether it must be
    quoted, its quoted form, and the word as a list element. *)
Definition needs_quoting (s : string) : bool :=
  negb (fst (Tcl_ScanCountedElement s) =? Z.of_nat (String.length s)).

Definition quoted (s : string) : string :=
  Tcl_ConvertCountedElement s (snd (Tcl_ScanCountedElement s)).

Definition list_element (s : string) : string :=
  if needs_quoting s then quoted s else s.

(** The token for a word; [first] says it is the first token of the whole
    message.  Unless [AVOID_HACKS_FOR_ITCL] is defined the first token is
    never quoted. *)
Definition word_token (elemPtr : Tcl_Obj) (first : bool) : string :=
  if first && negb AVOID_HACKS_FOR_ITCL then bytes elemPtr
  else list_element (bytes elemPtr).

(** The canonical text of an index object: the entry its record selects
    (nothing when the cell holds NULL). *)
Definition canonical (m : Mem) (indexRep : IndexRep) : string :=
  match EXPAND_OF m indexRep with
  | Some s => s
  | None => EmptyString
  end.

(** The token for an argument of [objv]. *)
Definition arg_token (m : Mem) (arg : Tcl_Obj) (first : bool) : string :=
  match internalRep arg with
  | IndexType indexRep => canonical m indexRep
  | _ => word_token arg first
  end.

(** The tokens in order, the first one marked. *)
Fixpoint tokens_from (first : bool) (fs : list (bool -> string))
  : list string :=
  match fs with
  | [] => []
  | f :: rest => f first :: tokens_from false rest
  end.

(** The words taken from the ensemble's invocation and the arguments left
    in [objv]. *)
Definition rewritten (interp : Interp) (objv : list Tcl_Obj)
  : list Tcl_Obj * list Tcl_Obj :=
  match sourceObjs (ensembleRewrite interp) with
  | Some sources =>
      if numInsertedObjs (ensembleRewrite interp)
         <=? Z.of_nat (List.length objv)
      then (sources,
            skipn (Z.to_nat (numInsertedObjs (ensembleRewrite interp)))
                  objv)
      else ([], objv)
  | None => ([], objv)
  end.

Definition usage_tokens (m : Mem) (interp : Interp) (objv : list Tcl_Obj)
  : list string :=
  tokens_from true
    (map word_token (fst (rewritten interp objv))
       ++ map (arg_token m) (snd (rewritten interp objv))).

Definition usage_seed (interp : Interp) : string :=
  if negb (Z.land (flags interp) INTERP_ALTERNATE_WRONG_ARGS =? 0)
  then objResult interp ++ " or " ++ dquote
  else "wrong # args: should be " ++ dquote.

(** The trailing message as one more piece of text, when it is not NULL. *)
Definition message_piece (message : option string) : list string :=
  match message with
  | Some text => [text]
  | None => []
  end.

(** The message: the seed, the tokens and the trailing message joined by
    single spaces, and the closing quote. *)
Definition usage_text (m : Mem) (interp : Interp) (objv : list Tcl_Obj)
    (message : option string) : string :=
  usage_seed interp
    ++ String.concat " " (usage_tokens m interp objv ++ message_piece message)
    ++ dquote.

(** The tokens each followed by a space, the last one only when [more]
    text follows. *)
Fixpoint spaced (tokens : list string) (more : bool) : string :=
  match tokens with
  | [] => EmptyString
  | [tok] => if more then tok ++ " " else tok
  | tok :: rest => tok ++ " " ++ spaced rest more
  end.

Definition nonempty {A : Type} (l : list A) : bool :=
  match l with
  | [] => false
  | _ :: _ => true
  end.

(** *** The sentences of the specification that the code does not follow *)

(** "A space follows a token only when more tokens or a non-empty
    trailing message remain": an empty message is no piece of text. *)
Definition nonempty_message_piece (message : option string) : list string :=
  match message with
  | Some (String c text) => [String c text]
  | _ => []
  end.

Definition stated_usage_text (m : Mem) (interp : Interp)
    (objv : list Tcl_Obj) (message : option string) : string :=
  usage_seed interp
    ++ String.concat " " (usage_tokens m interp objv
                            ++ nonempty_message_piece message)
    ++ dquote.

(** "Every entry without the cached form is emitted quoted whenever the
    collaborator says quoting is required". *)
Definition stated_arg_token (m : Mem) (arg : Tcl_Obj) : string :=
  match internalRep arg with
  | IndexType indexRep => canonical m indexRep
  | _ => list_element (bytes arg)
  end.

Definition stated_quoting_text (m : Mem) (interp : Interp)
    (objv : list Tcl_Obj) (message : option string) : string :=
  usage_seed interp
    ++ String.concat " " (map (stated_arg_token m) objv
                            ++ message_piece message)
    ++ dquote.

End UsageVocabulary.

(** ** Data of the examples *)

(** A memory that holds the table [es] at [t] with stride [off] and NULL
    everywhere else. *)
Definition mem_of_table (t off : Z) (es : list string) : Mem :=
  fun a =>
    if (0 <? off) && (t <=? a) && ((a - t) mod off =? 0)
    then nth_error es (Z.to_nat ((a - t) / off))
    else None.

(** A list-quoting collaborator for the examples (tclUtil.c is not part of
    this file): a word that holds a space needs two more bytes and is put
    in braces. *)
Fixpoint has_space (s : string) : bool :=
  match s with
  | EmptyString => false
  | String c r => Ascii.eqb c " "%char || has_space r
  end.

Definition sample_scan (s : string) : Z * Z :=
  if has_space s then (Z.of_nat (String.length s) + 2, 1)
  else (Z.of_nat (String.length s), 0).

Definition sample_convert (s : string) (flags' : Z) : string :=
  "{" ++ s ++ "}".

Definition plain_interp : Interp :=
  mkInterp EmptyString 0 (mkRewrite None 0).

Definition commands : list string := ["attach"; "detach"].
Definition commands_mem : Mem := mem_of_table 4096 8 commands.

Definition prefixes : list string := ["abc"; "ab"; "abd"].
Definition prefixes_mem : Mem := mem_of_table 4096 8 prefixes.

Definition with_empty : list string := [EmptyString; "a"].
Definition with_empty_mem : Mem := mem_of_table 4096 8 with_empty.

(** A value that was never looked up, and the same string carrying the
    record a look-up in [commands] leaves. *)
Definition att_value : Tcl_Obj := mkObj "att" NoType.
Definition att_matched : Tcl_Obj :=
  mkObj "att" (IndexType (mkIndexRep 4096 8 0)).

(** The same string carrying a record for a table at another address. *)
Definition att_elsewhere : Tcl_Obj :=
  mkObj "att" (IndexType (mkIndexRep 8192 8 0)).

(** An interpreter in the middle of an ensemble call: one word was typed,
    one word was inserted in its place. *)
Definition ensemble_interp : Interp :=
  mkInterp EmptyString 0 (mkRewrite (Some [mkObj "ens" NoType]) 1).

(** ** The sentences on the look-up that the code does not follow *)

(** "A value whose string is equal to some table entry is found at that
    entry's index." *)
Definition stated_exact_match (TCL_EXACT : Z) (m : Mem) (fuel : nat)
    (interp : option Interp) (objPtr : Tcl_Obj) (t off : Z) (msg : string)
    (flags' : Z) (es : list string) (k : nat) : Prop :=
  table_at m t off es -> (List.length es < fuel)%nat -> NoDup es ->
  cache_sound m objPtr ->
  nth_error es k = Some (bytes objPtr) ->
  exists r,
    Tcl_GetIndexFromObjStruct TCL_EXACT m fuel interp objPtr t off msg flags'
    = Some r /\
    code r = TCL_OK /\ indexOut r = Some (Z.of_nat k).

(** "For a non-empty string equal to no entry the look-up succeeds if and
    only if the string is a strict prefix of exactly one entry and the exact
    flag was not supplied." *)
Definition stated_unique_abbreviation (TCL_EXACT : Z) (m : Mem) (fuel : nat)
    (interp : option Interp) (objPtr : Tcl_Obj) (t off : Z) (msg : string)
    (flags' : Z) (es : list string) : Prop :=
  table_at m t off es -> (List.length es < fuel)%nat ->
  cache_sound m objPtr ->
  bytes objPtr <> EmptyString -> ~ In (bytes objPtr) es ->
  exists r,
    Tcl_GetIndexFromObjStruct TCL_EXACT m fuel interp objPtr t off msg flags'
    = Some r /\
    (code r = TCL_OK <->
     count_abbrev (bytes objPtr) es = 1%nat /\
     exact_requested TCL_EXACT flags' = false).

Definition ambiguous_table : list string := ["abc"; "abd"; "x"].
Definition ambiguous_mem : Mem := mem_of_table 4096 8 ambiguous_table.

Definition two_entries : list string := ["abc"; "x"].
Definition two_entries_mem : Mem := mem_of_table 4096 8 two_entries.

(** ** Vocabulary of the further properties *)

(** The records a successful look-up takes from [ckalloc]: none when the
    value is an index object already. *)
Definition fresh_records (objPtr : Tcl_Obj) : nat :=
  match internalRep objPtr with
  | IndexType _ => 0
  | _ => 1
  end.

(** What a caller sees of a look-up besides the value: the status, the
    index stored and the interpreter. *)
Definition lookup_view (r : MatchResult) : Z * option Z * option Interp :=
  (code r, indexOut r, interpOut r).

(** The status and the index only. *)
Definition lookup_answer (r : MatchResult) : Z * option Z :=
  (code r, indexOut r).

(** A caller's [iPtr->flags |= flag], done before asking for the alternate
    form of the usage message. *)
Definition set_flag (interp : Interp) (flag : Z) : Interp :=
  mkInterp (objResult interp) (Z.lor (flags interp) flag)
           (ensembleRewrite interp).

(** An interpreter whose ensemble was invoked with the words [sources]. *)
Definition with_sources (interp : Interp) (sources : list Tcl_Obj) : Interp :=
  mkInterp (objResult interp) (flags interp)
           (mkRewrite (Some sources)
                      (numInsertedObjs (ensembleRewrite interp))).

Definition duplicates : list string := ["start"; "stop"; "start"].
Definition duplicates_mem : Mem := mem_of_table 4096 8 duplicates.

(** An empty table at 4096 (the sentinel alone) followed in memory by the
    entries of another table. *)
Definition after_sentinel : list string := ["left"; "right"].
Definition overread_mem : Mem := mem_of_table 4104 8 after_sentinel.

(** The memory of [commands] with one more string after the sentinel. *)
Definition commands_mem_more : Mem :=
  fun a => if a =? 4120 then Some "junk" else commands_mem a.

(** An interpreter that holds an earlier result. *)
Definition used_interp : Interp :=
  mkInterp "an earlier result" 0 (mkRewrite None 0).

(** The words of [commands] in the other order, and a memory that holds
    [commands] at 4096 and those at 8192. *)
Definition swapped_commands : list string := ["detach"; "attach"].
Definition two_tables_mem : Mem :=
  fun a => if a <? 8192 then commands_mem a
           else mem_of_table 8192 8 swapped_commands a.

(** Five entries 2^30 bytes apart: the product of the stride and the index
    4 does not fit an [int]. *)
Definition numbers : list string := ["zero"; "one"; "two"; "three"; "four"].
Definition numbers_mem : Mem := mem_of_table 4096 1073741824 numbers.

(** * Properties of the embedding *)

(** ** Strings *)

Lemma append_nil_r (s : string) : s ++ "" = s.
Proof. induction s as [|c s IH]; simpl; [reflexivity | now rewrite IH]. Qed.

Lemma append_assoc (s1 s2 s3 : string) : (s1 ++ s2) ++ s3 = s1 ++ (s2 ++ s3).
Proof. induction s1 as [|c s1 IH]; simpl; [reflexivity | now rewrite IH]. Qed.

(** ** The inner loop: comparing the key with one entry *)

Lemma compare_key_refl (k : string) : compare_key k k = ExactMatch.
Proof.
  induction k as [|c k IH]; simpl; [reflexivity|].
  now rewrite Ascii.eqb_refl.
Qed.

Lemma compare_key_exact (k e : string) :
  compare_key k e = ExactMatch <-> k = e.
Proof.
  split; [|intros ->; apply compare_key_refl].
  revert e; induction k as [|c k IH]; intros [|d e]; simpl;
    try discriminate; try reflexivity.
  destruct (Ascii.eqb_spec c d) as [->|]; [|discriminate].
  intros H; f_equal; now apply IH.
Qed.

Lemma compare_key_abbrev (k e : string) :
  compare_key k e = Abbreviation <-> abbreviates k e = true.
Proof.
  unfold abbreviates.
  revert e; induction k as [|c k IH]; intros [|d e]; simpl;
    try (split; (reflexivity || discriminate)).
  destruct (Ascii.eqb_spec c d) as [->|ne].
  - destruct (ascii_dec d d) as [_|ne]; [|now elim ne]. apply IH.
  - destruct (ascii_dec c d) as [eq|_]; [now elim ne|].
    split; discriminate.
Qed.

Lemma abbreviates_irrefl (k : string) : abbreviates k k = false.
Proof.
  unfold abbreviates. rewrite String.eqb_refl. apply andb_false_r.
Qed.

(** The three ways the inner loop ends, by what the key is to the entry. *)
Lemma compare_key_cases (k e : string) :
  (k = e /\ compare_key k e = ExactMatch) \/
  (k <> e /\ abbreviates k e = true /\ compare_key k e = Abbreviation) \/
  (k <> e /\ abbreviates k e = false /\ compare_key k e = Mismatch).
Proof.
  destruct (compare_key k e) eqn:E.
  - left. split; [now apply compare_key_exact | reflexivity].
  - right; left. repeat split.
    + intros ->. rewrite compare_key_refl in E. discriminate.
    + now apply compare_key_abbrev.
  - right; right. repeat split.
    + intros ->. rewrite compare_key_refl in E. discriminate.
    + destruct (abbreviates k e) eqn:A; [|reflexivity].
      apply compare_key_abbrev in A. congruence.
Qed.

(** ** The scan, in memory and over the entries *)

Lemma int_wrap_in_int (z : Z) : in_int z -> int_wrap z = z.
Proof.
  unfold in_int, int_wrap. intros H.
  rewrite Z.mod_small by lia. lia.
Qed.

(** A product that fits an [int] fits it for every smaller index. *)
Lemma in_int_smaller (off : Z) (n k : nat) :
  in_int (off * Z.of_nat n) -> (k <= n)%nat -> in_int (off * Z.of_nat k).
Proof.
  unfold in_int. intros [H1 H2] L.
  assert (0 <= Z.of_nat k <= Z.of_nat n) as [K1 K2] by lia.
  destruct (Z.le_gt_cases 0 off); split; nia.
Qed.

(** The cell that [k] steps of [NEXT_ENTRY] reach holds entry [k]. *)
Lemma table_at_cell (m : Mem) (off : Z) (es : list string) :
  forall (p : Z) (k : nat) (e : string),
    table_at m p off es -> nth_error es k = Some e ->
    m (p + off * Z.of_nat k) = Some e.
Proof.
  induction es as [|e0 es IH]; intros p k e T N.
  - destruct k; discriminate.
  - destruct T as [T0 T]. destruct k as [|k].
    + injection N as <-. simpl. now replace (p + off * 0) with p by lia.
    + simpl in N. specialize (IH _ _ _ T N). unfold NEXT_ENTRY in IH.
      replace (p + off * Z.of_nat (S k)) with (p + off * 1 + off * Z.of_nat k)
        by lia.
      exact IH.
Qed.

(** [STRING_AT] reads entry [k] when its product fits an [int]. *)
Lemma table_at_nth (m : Mem) (off : Z) (es : list string) :
  forall (p : Z) (k : nat) (e : string),
    table_at m p off es -> nth_error es k = Some e ->
    in_int (off * Z.of_nat k) ->
    STRING_AT m p off (Z.of_nat k) = Some e.
Proof.
  intros p k e T N B. unfold STRING_AT. rewrite int_wrap_in_int by exact B.
  now apply (table_at_cell m off es).
Qed.

Lemma table_at_sentinel (m : Mem) (off : Z) (es : list string) :
  forall p, table_at m p off es ->
    m (p + off * Z.of_nat (List.length es)) = None.
Proof.
  induction es as [|e0 es IH]; intros p T.
  - simpl in *. now replace (p + off * 0) with p by lia.
  - destruct T as [_ T]. specialize (IH _ T). unfold NEXT_ENTRY in IH.
    replace (p + off * Z.of_nat (List.length (e0 :: es)))
      with (p + off * 1 + off * Z.of_nat (List.length es))
      by (simpl List.length; lia).
    exact IH.
Qed.

(** With fuel for every entry and the sentinel, the scan of the memory is
    the scan of the entries. *)
Lemma scan_table_complete (m : Mem) (key : string) (off : Z)
    (es : list string) :
  forall (fuel : nat) (p i idx n : Z),
    table_at m p off es -> (List.length es < fuel)%nat ->
    scan_table m key off fuel p i idx n = Some (scan_list key es i idx n).
Proof.
  induction es as [|e es IH]; intros fuel p i idx n T F;
    (destruct fuel as [|fuel]; [simpl in F; lia|]); simpl.
  - simpl in T. now rewrite T.
  - destruct T as [T0 T]. rewrite T0. simpl in F.
    destruct (compare_key key e); [reflexivity | |]; apply IH;
      (assumption || lia).
Qed.

(** Whatever the fuel, a scan that returns is the scan of the entries. *)
Lemma scan_table_sound (m : Mem) (key : string) (off : Z)
    (es : list string) :
  forall (fuel : nat) (p i idx n : Z) (x : ScanExit),
    table_at m p off es ->
    scan_table m key off fuel p i idx n = Some x ->
    x = scan_list key es i idx n.
Proof.
  induction es as [|e es IH]; intros fuel p i idx n x T S;
    (destruct fuel as [|fuel]; [discriminate|]); simpl in S.
  - simpl in T. rewrite T in S. now injection S as <-.
  - destruct T as [T0 T]. rewrite T0 in S. simpl.
    destruct (compare_key key e).
    + now injection S as <-.
    + now apply IH with (1 := T) in S.
    + now apply IH with (1 := T) in S.
Qed.

(** The scan stops at an entry equal to the key when no earlier entry is. *)
Lemma scan_list_exact (key : string) (es : list string) :
  forall (k : nat) (i idx n : Z),
    nth_error es k = Some key -> NoDup es ->
    scan_list key es i idx n = GotoDone (i + Z.of_nat k).
Proof.
  induction es as [|e es IH]; intros k i idx n N D.
  - destruct k; discriminate.
  - inversion D as [|? ? Hnotin D']; subst. destruct k as [|k]; simpl in *.
    + injection N as ->. rewrite compare_key_refl. f_equal. lia.
    + assert (key <> e) as Hne.
      { intros ->. apply Hnotin. eapply nth_error_In; eassumption. }
      destruct (compare_key_cases key e) as [[? _]|[(_ & _ & ->)|(_ & _ & ->)]];
        [contradiction | |];
        rewrite (IH k) by assumption; f_equal; lia.
Qed.

(** In memory the scan stops there too, and reads no cell after that
    entry: fuel for the entries up to it is enough. *)
Lemma scan_table_exact (m : Mem) (key : string) (off : Z)
    (es : list string) :
  forall (k fuel : nat) (p i idx n : Z),
    table_at m p off es -> nth_error es k = Some key -> NoDup es ->
    (k < fuel)%nat ->
    scan_table m key off fuel p i idx n = Some (GotoDone (i + Z.of_nat k)).
Proof.
  induction es as [|e es IH]; intros k fuel p i idx n T N D F.
  - destruct k; discriminate.
  - destruct fuel as [|fuel]; [lia|]. destruct T as [T0 T].
    inversion D as [|? ? Hnotin D']; subst. cbn [scan_table]. rewrite T0.
    destruct k as [|k]; simpl in N.
    + injection N as ->. rewrite compare_key_refl. do 2 f_equal. lia.
    + assert (key <> e) as Hne.
      { intros ->. apply Hnotin. eapply nth_error_In; eassumption. }
      destruct (compare_key_cases key e)
        as [[? _]|[(_ & _ & ->)|(_ & _ & ->)]];
        [contradiction | |];
        rewrite (IH k) by (assumption || lia); do 2 f_equal; lia.
Qed.

(** A scan that reaches the sentinel met no entry equal to the key and
    counted the entries the key abbreviates. *)
Lemma scan_list_end (key : string) (es : list string) :
  forall (i idx n idx' n' : Z),
    scan_list key es i idx n = LoopEnd idx' n' ->
    ~ In key es /\ n' = n + Z.of_nat (count_abbrev key es).
Proof.
  unfold count_abbrev.
  induction es as [|e es IH]; intros i idx n idx' n' S; simpl in S.
  - injection S as <- <-. simpl. split; [tauto | lia].
  - simpl.
    destruct (compare_key_cases key e)
      as [[_ E]|[(Hne & A & E)|(Hne & A & E)]]; rewrite E in S;
      [discriminate | |]; rewrite A; apply IH in S as [S1 S2];
      (split; [intros [<-|?]; [now apply Hne | contradiction]
              | simpl List.length; lia]).
Qed.

(** A scan that stops early stops at the first entry equal to the key. *)
Lemma scan_list_done (key : string) (es : list string) :
  forall (i idx n j : Z),
    scan_list key es i idx n = GotoDone j ->
    exists k, j = i + Z.of_nat k /\ nth_error es k = Some key.
Proof.
  induction es as [|e es IH]; intros i idx n j S; simpl in S;
    [discriminate|].
  destruct (compare_key_cases key e)
    as [[-> E]|[(Hne & A & E)|(Hne & A & E)]]; rewrite E in S.
  - injection S as <-. exists 0%nat. split; [lia | reflexivity].
  - apply IH in S as (k & -> & N). exists (S k). split; [lia | exact N].
  - apply IH in S as (k & -> & N). exists (S k). split; [lia | exact N].
Qed.

(** Without an entry equal to the key the scan reaches the sentinel. *)
Lemma scan_list_no_exact (key : string) (es : list string) :
  forall (i idx n : Z),
    ~ In key es ->
    exists idx', scan_list key es i idx n
                 = LoopEnd idx' (n + Z.of_nat (count_abbrev key es)).
Proof.
  intros i idx n H.
  destruct (scan_list key es i idx n) as [j|idx' n'] eqn:S.
  - apply scan_list_done in S as (k & _ & N).
    elim H. eapply nth_error_In; eassumption.
  - exists idx'. apply scan_list_end in S as [_ ->]. reflexivity.
Qed.

(** The index left at the sentinel is that of the last entry the key
    abbreviates. *)
Lemma scan_list_last_abbrev (key : string) (es : list string) :
  forall (i idx n idx' n' : Z),
    scan_list key es i idx n = LoopEnd idx' n' ->
    (count_abbrev key es = 0%nat /\ idx' = idx) \/
    (exists k e, idx' = i + Z.of_nat k /\ nth_error es k = Some e /\
                 abbreviates key e = true /\
                 count_abbrev key (skipn (S k) es) = 0%nat).
Proof.
  unfold count_abbrev.
  induction es as [|e es IH]; intros i idx n idx' n' S; simpl in S.
  - injection S as <- <-. left. split; reflexivity.
  - simpl filter.
    destruct (compare_key_cases key e)
      as [[_ E]|[(Hne & A & E)|(Hne & A & E)]]; rewrite E in S;
      [discriminate | |]; rewrite A;
      apply IH in S as [[C ->]|(k & e' & -> & N & A' & C)].
    + right. exists 0%nat, e. repeat split; try assumption. lia.
    + right. exists (S k), e'. repeat split; try assumption. lia.
    + left. split; [exact C | reflexivity].
    + right. exists (S k), e'. repeat split; try assumption. lia.
Qed.

Lemma count_abbrev_pos (key : string) (es : list string) :
  forall (k : nat) (e : string),
    nth_error es k = Some e -> abbreviates key e = true ->
    (0 < count_abbrev key es)%nat.
Proof.
  unfold count_abbrev.
  induction es as [|a es IH]; intros k e N A.
  - destruct k; discriminate.
  - simpl. destruct k as [|k]; simpl in N.
    + injection N as ->. rewrite A. simpl. lia.
    + specialize (IH _ _ N A). destruct (abbreviates key a); simpl; lia.
Qed.

(** When the key abbreviates one entry only, that entry has one index. *)
Lemma count_abbrev_unique (key : string) (es : list string) :
  forall (k k' : nat) (e e' : string),
    count_abbrev key es = 1%nat ->
    nth_error es k = Some e -> abbreviates key e = true ->
    nth_error es k' = Some e' -> abbreviates key e' = true ->
    k = k'.
Proof.
  induction es as [|a es IH]; intros k k' e e' C N A N' A'.
  - destruct k; discriminate.
  - unfold count_abbrev in C. simpl in C.
    destruct k as [|k], k' as [|k']; simpl in N, N'; [reflexivity | | |].
    + injection N as ->. rewrite A in C. simpl in C.
      pose proof (count_abbrev_pos key es _ _ N' A') as P.
      unfold count_abbrev in P. lia.
    + injection N' as ->. rewrite A' in C. simpl in C.
      pose proof (count_abbrev_pos key es _ _ N A) as P.
      unfold count_abbrev in P. lia.
    + f_equal. pose proof (count_abbrev_pos key es _ _ N A) as P.
      unfold count_abbrev in P.
      destruct (abbreviates key a); simpl in C; [lia|].
      now apply (IH k k' e e').
Qed.

(** ** The text of the error path *)

Lemma error_entries_alternatives (m : Mem) (off : Z) (es : list string) :
  forall (fuel : nat) (p count : Z) (acc : string),
    table_at m p off es -> (List.length es < fuel)%nat ->
    error_entries m off fuel p count acc = Some (acc ++ alternatives count es).
Proof.
  induction es as [|e es IH]; intros fuel p count acc T F;
    (destruct fuel as [|fuel]; [simpl in F; lia|]).
  - simpl in *. rewrite T. now rewrite append_nil_r.
  - destruct T as [T0 T]. simpl in F.
    cbn [error_entries]. rewrite T0.
    destruct es as [|e' es].
    + simpl in T. rewrite T. rewrite (IH fuel) by (simpl; (assumption || lia)).
      cbn [Tcl_AppendStringsToObj alternatives].
      now rewrite append_nil_r, append_assoc.
    + destruct T as [T1 T]. rewrite T1.
      rewrite (IH fuel) by first [split; assumption | simpl in *; lia].
      cbn [Tcl_AppendStringsToObj]. cbn [alternatives].
      now rewrite !append_assoc.
Qed.

Lemma alternatives_comma (es : list string) :
  forall count, 0 < count -> es <> [] ->
    alternatives count es =
    fold_right String.append EmptyString
               (map (fun e => ", " ++ e) (removelast es))
      ++ ", or " ++ last es EmptyString.
Proof.
  induction es as [|e es IH]; intros count C N; [now elim N|].
  destruct es as [|e' es].
  - cbn [alternatives]. destruct (0 <? count) eqn:E; [reflexivity|].
    apply Z.ltb_ge in E. lia.
  - change (alternatives count (e :: e' :: es))
      with (", " ++ e ++ alternatives (count + 1) (e' :: es)).
    rewrite IH by (lia || discriminate).
    change (removelast (e :: e' :: es)) with (e :: removelast (e' :: es)).
    change (last (e :: e' :: es) EmptyString)
      with (last (e' :: es) EmptyString).
    cbn [map fold_right]. now rewrite !append_assoc.
Qed.

Lemma alternatives_enumerate (e0 : string) (rest : list string) :
  e0 ++ alternatives 0 rest = enumerate (e0 :: rest).
Proof.
  destruct rest as [|e1 [|e2 rest]].
  - simpl. apply append_nil_r.
  - reflexivity.
  - change (alternatives 0 (e1 :: e2 :: rest))
      with (", " ++ e1 ++ alternatives (0 + 1) (e2 :: rest)).
    rewrite alternatives_comma by (lia || discriminate).
    unfold enumerate.
    change (removelast (e1 :: e2 :: rest)) with (e1 :: removelast (e2 :: rest)).
    change (last (e1 :: e2 :: rest) EmptyString)
      with (last (e2 :: rest) EmptyString).
    cbn [map fold_right]. now rewrite !append_assoc.
Qed.

Lemma error_message_text (m : Mem) (fuel : nat) (key msg : string)
    (t off n : Z) (es : list string) :
  table_at m t off es -> es <> [] -> (List.length es < fuel)%nat ->
  error_message m fuel key msg t off n =
  Some ((if 1 <? n then "ambiguous " else "bad ") ++ msg ++ " " ++ dquote
          ++ key ++ dquote ++ ": must be " ++ enumerate es).
Proof.
  intros T N F. destruct es as [|e0 rest]; [now elim N|].
  destruct T as [T0 T]. unfold error_message, STRING_AT.
  rewrite Z.mul_0_r. change (int_wrap 0) with 0. rewrite Z.add_0_r, T0.
  rewrite (error_entries_alternatives m off rest)
    by (assumption || (simpl in F; lia)).
  cbn [Tcl_AppendStringsToObj]. rewrite <- alternatives_enumerate.
  f_equal. cbn [String.append]. now rewrite !append_assoc.
Qed.

(** ** The look-up *)

Lemma cached_index_hit (objPtr : Tcl_Obj) (t off i : Z) :
  cached_index objPtr t off = Some i <->
  exists r, internalRep objPtr = IndexType r /\
            tablePtr r = t /\ offset r = off /\ index r = i.
Proof.
  unfold cached_index. split.
  - destruct (internalRep objPtr) as [| |r]; try discriminate.
    destruct (tablePtr r =? t) eqn:E1; [|discriminate].
    destruct (offset r =? off) eqn:E2; [|discriminate].
    intros [= <-]. exists r. repeat split; lia.
  - intros (r & -> & <- & <- & <-). now rewrite !Z.eqb_refl.
Qed.

Lemma cached_index_miss (objPtr : Tcl_Obj) (t off : Z) :
  cached_index objPtr t off = None <->
  forall r, internalRep objPtr = IndexType r ->
            tablePtr r <> t \/ offset r <> off.
Proof.
  unfold cached_index. split.
  - intros H r E. rewrite E in H.
    destruct (tablePtr r =? t) eqn:E1; [|left; lia].
    destruct (offset r =? off) eqn:E2; [discriminate | right; lia].
  - intros H. destruct (internalRep objPtr) as [| |r]; try reflexivity.
    destruct (H r eq_refl) as [N|N]; apply Z.eqb_neq in N; rewrite N;
      [reflexivity | now rewrite andb_false_r].
Qed.

Lemma match_done_spec (interp : option Interp) (objPtr : Tcl_Obj)
    (t off i : Z) :
  exists n,
    match_done interp objPtr t off i =
    mkResult TCL_OK (Some i)
             (mkObj (bytes objPtr) (IndexType (mkIndexRep t off i))) interp n /\
    (n = 0%nat <-> exists r, internalRep objPtr = IndexType r).
Proof.
  unfold match_done. destruct (internalRep objPtr) as [| |r].
  - exists 1%nat. split; [reflexivity|]. split; [discriminate|].
    intros [r E]; discriminate.
  - exists 1%nat. split; [reflexivity|]. split; [discriminate|].
    intros [r E]; discriminate.
  - exists 0%nat. split; [reflexivity|]. split; [now exists r | reflexivity].
Qed.

Lemma match_error_spec (m : Mem) (fuel : nat) (interp : option Interp)
    (objPtr : Tcl_Obj) (key msg : string) (t off n : Z) (r : MatchResult) :
  match_error m fuel interp objPtr key msg t off n = Some r ->
  code r = TCL_ERROR /\ indexOut r = None /\ objOut r = objPtr /\
  ckallocs r = 0%nat /\
  match interp with
  | None => interpOut r = None
  | Some ip =>
      exists text, error_message m fuel key msg t off n = Some text /\
                   interpOut r = Some (Tcl_SetObjResult ip text)
  end.
Proof.
  unfold match_error. destruct interp as [ip|].
  - destruct (error_message m fuel key msg t off n) as [text|];
      [|discriminate].
    intros [= <-]. simpl. repeat split. now exists text.
  - intros [= <-]. simpl. repeat split.
Qed.

Section LookupTheory.

Variable TCL_EXACT : Z.
Variable sizeof_char_ptr : Z.

(** The look-up of a value without a record for the table, by the scan
    of the entries. *)
Lemma Match_uncached (m : Mem) (fuel : nat) (interp : option Interp)
    (objPtr : Tcl_Obj) (t off : Z) (msg : string) (flags' : Z)
    (es : list string) :
  table_at m t off es -> (List.length es < fuel)%nat ->
  cached_index objPtr t off = None ->
  bytes objPtr <> EmptyString ->
  Tcl_GetIndexFromObjStruct TCL_EXACT m fuel interp objPtr t off msg flags' =
  match scan_list (bytes objPtr) es 0 (-1) 0 with
  | GotoDone i => Some (match_done interp objPtr t off i)
  | LoopEnd i n =>
      if exact_requested TCL_EXACT flags' || negb (n =? 1)
      then match_error m fuel interp objPtr (bytes objPtr) msg t off n
      else Some (match_done interp objPtr t off i)
  end.
Proof.
  intros T F C K. unfold Tcl_GetIndexFromObjStruct, Tcl_GetStringFromObj.
  rewrite C. destruct (bytes objPtr) as [|c k] eqn:B; [now elim K|].
  now rewrite (scan_table_complete m _ off es) by assumption.
Qed.

(** A failing call changes nothing but the result of the interpreter. *)
Lemma Match_error_frame (m : Mem) (fuel : nat) (interp : option Interp)
    (objPtr : Tcl_Obj) (t off : Z) (msg : string) (flags' : Z)
    (r : MatchResult) :
  Tcl_GetIndexFromObjStruct TCL_EXACT m fuel interp objPtr t off msg flags'
  = Some r ->
  code r = TCL_ERROR ->
  objOut r = objPtr /\ indexOut r = None /\ ckallocs r = 0%nat /\
  match interp with
  | None => interpOut r = None
  | Some ip => exists text, interpOut r = Some (Tcl_SetObjResult ip text)
  end.
Proof.
  unfold Tcl_GetIndexFromObjStruct, Tcl_GetStringFromObj.
  intros E C.
  assert (forall key n,
    match_error m fuel interp objPtr key msg t off n = Some r ->
    objOut r = objPtr /\ indexOut r = None /\ ckallocs r = 0%nat /\
    match interp with
    | None => interpOut r = None
    | Some ip => exists text, interpOut r = Some (Tcl_SetObjResult ip text)
    end) as ERR.
  { intros key n H. apply match_error_spec in H as (_ & H1 & H2 & H3 & H4).
    repeat split; try assumption.
    destruct interp as [ip|]; [|assumption].
    destruct H4 as (text & _ & H4). now exists text. }
  assert (forall i, Some (match_done interp objPtr t off i) = Some r ->
                    False) as DONE.
  { intros i [= <-].
    destruct (match_done_spec interp objPtr t off i) as (n & D & _).
    rewrite D in C. discriminate C. }
  destruct (cached_index objPtr t off) as [i|].
  { injection E as <-. discriminate C. }
  destruct (bytes objPtr) as [|c k]; [now apply ERR in E|].
  destruct (scan_table m (String c k) off fuel t 0 (-1) 0) as [[i|i n]|];
    [now elim (DONE i) | | discriminate].
  destruct (exact_requested TCL_EXACT flags' || negb (n =? 1));
    [now apply ERR in E | now elim (DONE i)].
Qed.

(** X7: the look-up keeps values sound.  Whatever a call returns, the
    record the value carries afterwards (the old one on a hit or a failure,
    the new one on a success) holds the index that a scan of the value's
    string over the record's table yields. *)
Lemma Tcl_GetIndexFromObjStruct_sound (m : Mem) (fuel : nat)
    (interp : option Interp) (objPtr : Tcl_Obj) (t off : Z) (msg : string)
    (flags' : Z) (r : MatchResult) :
  cache_sound m objPtr ->
  Tcl_GetIndexFromObjStruct TCL_EXACT m fuel interp objPtr t off msg flags'
  = Some r ->
  cache_sound m (objOut r).
Proof.
  intros S E.
  destruct (Z.eq_dec (code r) TCL_ERROR) as [C|C].
  { apply Match_error_frame in E as [-> _]; assumption. }
  revert E. unfold Tcl_GetIndexFromObjStruct, Tcl_GetStringFromObj.
  destruct (cached_index objPtr t off) as [i|].
  { intros [= <-]. exact S. }
  assert (forall key n,
    match_error m fuel interp objPtr key msg t off n = Some r ->
    cache_sound m (objOut r)) as ERR.
  { intros key n H. apply match_error_spec in H as [H _]. contradiction. }
  destruct (bytes objPtr) as [|c k] eqn:B; [apply ERR|].
  rewrite <- B.
  destruct (scan_table m (bytes objPtr) off fuel t 0 (-1) 0)
    as [[i|i n]|] eqn:SC; [ | | discriminate].
  - intros [= <-].
    destruct (match_done_spec interp objPtr t off i) as (a & -> & _).
    intros r' [= <-]. simpl. split; [congruence|].
    exists fuel, (GotoDone i). split; [exact SC | reflexivity].
  - destruct (exact_requested TCL_EXACT flags' || negb (n =? 1)) eqn:X;
      [apply ERR|].
    intros [= <-].
    destruct (match_done_spec interp objPtr t off i) as (a & -> & _).
    intros r' [= <-]. simpl. split; [congruence|].
    exists fuel, (LoopEnd i n). split; [exact SC|]. simpl.
    apply orb_false_elim in X as [_ X]. apply negb_false_iff in X.
    now rewrite X.
Qed.

(** With a table in memory and fuel for it the look-up returns; an empty
    table is excluded when a message is asked for, because the error path
    then reads the cells after the sentinel. *)
Lemma Match_returns (m : Mem) (fuel : nat) (interp : option Interp)
    (objPtr : Tcl_Obj) (t off : Z) (msg : string) (flags' : Z)
    (es : list string) :
  table_at m t off es -> (List.length es < fuel)%nat ->
  es <> [] \/ interp = None ->
  exists r,
    Tcl_GetIndexFromObjStruct TCL_EXACT m fuel interp objPtr t off msg flags'
    = Some r.
Proof.
  intros T F N.
  assert (forall key n, exists r,
    match_error m fuel interp objPtr key msg t off n = Some r) as ERR.
  { intros key n. unfold match_error. destruct interp as [ip|].
    - destruct N as [N|N]; [|discriminate].
      rewrite (error_message_text m fuel key msg t off n es) by assumption.
      eexists; reflexivity.
    - eexists; reflexivity. }
  unfold Tcl_GetIndexFromObjStruct, Tcl_GetStringFromObj.
  destruct (cached_index objPtr t off) as [i|]; [eexists; reflexivity|].
  destruct (bytes objPtr) as [|c k]; [apply ERR|].
  rewrite (scan_table_complete m _ off es) by assumption.
  destruct (scan_list (String c k) es 0 (-1) 0) as [i|i n];
    [eexists; reflexivity|].
  destruct (exact_requested TCL_EXACT flags' || negb (n =? 1));
    [apply ERR | eexists; reflexivity].
Qed.

(** C1 (amended): a non-empty string equal to an entry of the table is
    found at that entry's index, whatever the flags and whatever other
    entries it is a prefix of, and the scan stops at that entry (fuel for
    the entries up to it is enough); the value then carries the record
    (table, stride, index). *)
Theorem exact_entry_wins (m : Mem) (fuel : nat) (interp : option Interp)
    (objPtr : Tcl_Obj) (t off : Z) (msg : string) (flags' : Z)
    (es : list string) (k : nat) :
  table_at m t off es -> (k < fuel)%nat -> NoDup es ->
  cache_sound m objPtr ->
  bytes objPtr <> EmptyString ->
  nth_error es k = Some (bytes objPtr) ->
  exists n,
    Tcl_GetIndexFromObjStruct TCL_EXACT m fuel interp objPtr t off msg flags'
    = Some (mkResult TCL_OK (Some (Z.of_nat k))
              (mkObj (bytes objPtr)
                     (IndexType (mkIndexRep t off (Z.of_nat k))))
              interp n).
Proof.
  intros T F D S K N.
  pose proof (scan_list_exact (bytes objPtr) es k 0 (-1) 0 N D) as SL.
  rewrite Z.add_0_l in SL.
  destruct (cached_index objPtr t off) as [i|] eqn:C.
  - apply cached_index_hit in C as (r & R & <- & <- & <-).
    destruct (S r R) as (_ & fuel' & x & SC & X).
    apply (scan_table_sound m _ _ es) in SC; [|assumption].
    rewrite SL in SC. subst x. injection X as X.
    unfold Tcl_GetIndexFromObjStruct.
    replace (cached_index objPtr (tablePtr r) (offset r))
      with (Some (index r))
      by (symmetry; apply cached_index_hit; now exists r).
    exists 0%nat. rewrite X. do 2 f_equal.
    destruct objPtr as [b ir], r as [rt ro ri]; simpl in *. subst.
    reflexivity.
  - unfold Tcl_GetIndexFromObjStruct, Tcl_GetStringFromObj. rewrite C.
    destruct (bytes objPtr) as [|c s] eqn:B; [now elim K|].
    rewrite (scan_table_exact m _ off es k) by assumption.
    rewrite Z.add_0_l.
    destruct (match_done_spec interp objPtr t off (Z.of_nat k))
      as (n & -> & _).
    rewrite B. now exists n.
Qed.

(** C2 (amended): for a value without a record for the table whose
    non-empty string equals no entry, the look-up succeeds exactly when
    the string is a strict prefix of one entry only and [TCL_EXACT] is not
    set; the index is then that entry's, and otherwise the status is
    [TCL_ERROR]. *)
Theorem unique_abbreviation_accepted (m : Mem) (fuel : nat)
    (interp : option Interp) (objPtr : Tcl_Obj) (t off : Z) (msg : string)
    (flags' : Z) (es : list string) :
  table_at m t off es -> (List.length es < fuel)%nat ->
  es <> [] \/ interp = None ->
  cached_index objPtr t off = None ->
  bytes objPtr <> EmptyString ->
  ~ In (bytes objPtr) es ->
  exists r,
    Tcl_GetIndexFromObjStruct TCL_EXACT m fuel interp objPtr t off msg flags'
    = Some r /\
    (code r = TCL_OK \/ code r = TCL_ERROR) /\
    (code r = TCL_OK <->
     count_abbrev (bytes objPtr) es = 1%nat /\
     exact_requested TCL_EXACT flags' = false) /\
    (code r = TCL_OK ->
     forall k e, nth_error es k = Some e ->
                 abbreviates (bytes objPtr) e = true ->
                 indexOut r = Some (Z.of_nat k)).
Proof.
  intros T F N C K NI.
  destruct (Match_returns m fuel interp objPtr t off msg flags' es T F N)
    as [r E].
  exists r. split; [exact E|].
  rewrite (Match_uncached m fuel interp objPtr t off msg flags' es) in E
    by assumption.
  destruct (scan_list (bytes objPtr) es 0 (-1) 0) as [j|idx n] eqn:SL.
  { apply scan_list_done in SL as (k & _ & Hk). elim NI.
    eapply nth_error_In; eassumption. }
  pose proof (scan_list_end _ _ _ _ _ _ _ SL) as [_ Hn].
  pose proof (scan_list_last_abbrev _ _ _ _ _ _ _ SL) as LA.
  rewrite Z.add_0_l in Hn.
  destruct (exact_requested TCL_EXACT flags') eqn:X; simpl in E.
  - apply match_error_spec in E as (Cr & _).
    split; [now right|]. split.
    + split; [intros H; rewrite H in Cr; discriminate Cr|].
      intros [_ H]; discriminate H.
    + intros H; rewrite H in Cr; discriminate Cr.
  - destruct (n =? 1) eqn:N1; simpl in E.
    + apply Z.eqb_eq in N1.
      assert (count_abbrev (bytes objPtr) es = 1%nat) as C1 by lia.
      injection E as <-.
      destruct (match_done_spec interp objPtr t off idx) as (a & -> & _).
      simpl. split; [now left|]. split; [tauto|].
      intros _ k e Hk A.
      destruct LA as [[C0 _]|(k' & e' & -> & Hk' & A' & _)]; [lia|].
      rewrite (count_abbrev_unique _ es k k' e e' C1 Hk A Hk' A').
      f_equal.
    + apply Z.eqb_neq in N1.
      apply match_error_spec in E as (Cr & _).
      split; [now right|]. split.
      * split; [intros H; rewrite H in Cr; discriminate Cr|].
        intros [H _]. lia.
      * intros H; rewrite H in Cr; discriminate Cr.
Qed.

(** C3: the record is honoured exactly when its table pointer and stride
    are the ones supplied.  On a hit the stored index is returned whatever
    the memory, the fuel and the flags, so no entry is read, and no record
    is allocated; in particular a second look-up after a successful one
    returns the same index.  With another table pointer or stride the
    status, the index and the message are those of a value without a
    record, and a success overwrites the record in place.
    [Tcl_GetIndexFromObj] is the look-up with the stride of a pointer.
    Last, with another table pointer or stride the stored index is not used
    and the supplied table is scanned: the result is the one the scan of its
    entries gives for the string of the value, and on a success the index of
    that scan is stored over the old record. *)
Theorem cache_honoured_by_identity :
  (forall m fuel interp objPtr t off msg flags' r,
      internalRep objPtr = IndexType r ->
      tablePtr r = t -> offset r = off ->
      Tcl_GetIndexFromObjStruct TCL_EXACT m fuel interp objPtr t off msg
                                flags'
      = Some (mkResult TCL_OK (Some (index r)) objPtr interp 0)) /\
  (forall m fuel interp objPtr t off msg flags' r1,
      Tcl_GetIndexFromObjStruct TCL_EXACT m fuel interp objPtr t off msg
                                flags' = Some r1 ->
      code r1 = TCL_OK ->
      forall m' fuel' interp' msg' flags'',
        Tcl_GetIndexFromObjStruct TCL_EXACT m' fuel' interp' (objOut r1)
                                  t off msg' flags''
        = Some (mkResult TCL_OK (indexOut r1) (objOut r1) interp' 0)) /\
  (forall m fuel interp objPtr t off msg flags' r,
      internalRep objPtr = IndexType r ->
      tablePtr r <> t \/ offset r <> off ->
      option_map (fun x => (code x, indexOut x, interpOut x))
        (Tcl_GetIndexFromObjStruct TCL_EXACT m fuel interp objPtr t off msg
                                   flags')
      = option_map (fun x => (code x, indexOut x, interpOut x))
          (Tcl_GetIndexFromObjStruct TCL_EXACT m fuel interp
             (mkObj (bytes objPtr) NoType) t off msg flags') /\
      forall x,
        Tcl_GetIndexFromObjStruct TCL_EXACT m fuel interp objPtr t off msg
                                  flags' = Some x ->
        code x = TCL_OK ->
        exists i, indexOut x = Some i /\
                  objOut x = mkObj (bytes objPtr)
                                   (IndexType (mkIndexRep t off i)) /\
                  ckallocs x = 0%nat) /\
  (forall m fuel interp objPtr t msg flags',
      Tcl_GetIndexFromObj TCL_EXACT sizeof_char_ptr m fuel interp objPtr t
                          msg flags'
      = Tcl_GetIndexFromObjStruct TCL_EXACT m fuel interp objPtr t
                                  sizeof_char_ptr msg flags') /\
  (forall m fuel interp objPtr t off msg flags' r es,
      internalRep objPtr = IndexType r ->
      tablePtr r <> t \/ offset r <> off ->
      table_at m t off es -> (List.length es < fuel)%nat ->
      Tcl_GetIndexFromObjStruct TCL_EXACT m fuel interp objPtr t off msg
                                flags'
      = match bytes objPtr with
        | EmptyString =>
            match_error m fuel interp objPtr EmptyString msg t off 0
        | String _ _ =>
            match scan_list (bytes objPtr) es 0 (-1) 0 with
            | GotoDone i =>
                Some (mkResult TCL_OK (Some i)
                        (mkObj (bytes objPtr)
                               (IndexType (mkIndexRep t off i)))
                        interp 0)
            | LoopEnd i n =>
                if exact_requested TCL_EXACT flags' || negb (n =? 1)
                then match_error m fuel interp objPtr (bytes objPtr) msg
                                 t off n
                else Some (mkResult TCL_OK (Some i)
                             (mkObj (bytes objPtr)
                                    (IndexType (mkIndexRep t off i)))
                             interp 0)
            end
        end).
Proof.
  assert (forall m fuel interp objPtr t off msg flags' r,
      internalRep objPtr = IndexType r ->
      tablePtr r = t -> offset r = off ->
      Tcl_GetIndexFromObjStruct TCL_EXACT m fuel interp objPtr t off msg
                                flags'
      = Some (mkResult TCL_OK (Some (index r)) objPtr interp 0)) as HIT.
  { intros m fuel interp objPtr t off msg flags' r R Ht Ho.
    unfold Tcl_GetIndexFromObjStruct.
    replace (cached_index objPtr t off) with (Some (index r));
      [reflexivity|].
    symmetry. apply cached_index_hit. now exists r. }
  split; [exact HIT|]. split; [|split; [|split]].
  - intros m fuel interp objPtr t off msg flags' r1 E C m' fuel' interp'
           msg' flags''.
    assert (exists r, internalRep (objOut r1) = IndexType r /\
                      tablePtr r = t /\ offset r = off /\
                      indexOut r1 = Some (index r)) as (r & R & Ht & Ho & ->).
    { revert E. unfold Tcl_GetIndexFromObjStruct, Tcl_GetStringFromObj.
      assert (forall key n,
        match_error m fuel interp objPtr key msg t off n = Some r1 ->
        exists r, internalRep (objOut r1) = IndexType r /\
                  tablePtr r = t /\ offset r = off /\
                  indexOut r1 = Some (index r)) as ERR.
      { intros key n H. apply match_error_spec in H as [H _].
        rewrite H in C. discriminate C. }
      assert (forall i,
        Some (match_done interp objPtr t off i) = Some r1 ->
        exists r, internalRep (objOut r1) = IndexType r /\
                  tablePtr r = t /\ offset r = off /\
                  indexOut r1 = Some (index r)) as DONE.
      { intros i [= <-].
        destruct (match_done_spec interp objPtr t off i) as (n & -> & _).
        exists (mkIndexRep t off i). simpl. repeat split. }
      destruct (cached_index objPtr t off) as [i|] eqn:CI.
      { intros [= <-]. simpl.
        apply cached_index_hit in CI as (r & R & Ht & Ho & <-).
        now exists r. }
      destruct (bytes objPtr) as [|c k]; [apply ERR|].
      destruct (scan_table m (String c k) off fuel t 0 (-1) 0)
        as [[i|i n]|]; [apply DONE | | discriminate].
      destruct (exact_requested TCL_EXACT flags' || negb (n =? 1));
        [apply ERR | apply DONE]. }
    now apply HIT.
  - intros m fuel interp objPtr t off msg flags' r R NE.
    assert (cached_index objPtr t off = None) as CI.
    { apply cached_index_miss. intros r' R'. congruence. }
    unfold Tcl_GetIndexFromObjStruct, Tcl_GetStringFromObj.
    rewrite CI. unfold cached_index at 1. simpl internalRep. simpl bytes.
    unfold match_error, match_done. rewrite R. simpl internalRep.
    simpl bytes.
    destruct (bytes objPtr) as [|c k].
    + destruct interp as [ip|].
      * destruct (error_message m fuel EmptyString msg t off 0);
          (split; [reflexivity|]); [|discriminate].
        intros x [= <-] H. discriminate H.
      * split; [reflexivity|]. intros x [= <-] H. discriminate H.
    + destruct (scan_table m (String c k) off fuel t 0 (-1) 0)
        as [[i|i n]|].
      * split; [reflexivity|]. intros x [= <-] _. now exists i.
      * destruct (exact_requested TCL_EXACT flags' || negb (n =? 1)).
        -- destruct interp as [ip|].
           ++ destruct (error_message m fuel (String c k) msg t off n);
                (split; [reflexivity|]); [|discriminate].
              intros x [= <-] H. discriminate H.
           ++ split; [reflexivity|]. intros x [= <-] H. discriminate H.
        -- split; [reflexivity|]. intros x [= <-] _. now exists i.
      * split; [reflexivity | discriminate].
  - intros m fuel interp objPtr t msg flags'.
    unfold Tcl_GetIndexFromObj, Tcl_GetIndexFromObjStruct.
    destruct (cached_index objPtr t sizeof_char_ptr); reflexivity.
  - intros m fuel interp objPtr t off msg flags' r es R NE T F.
    assert (cached_index objPtr t off = None) as CI.
    { apply cached_index_miss. intros r' R'. congruence. }
    destruct (bytes objPtr) as [|c s] eqn:B.
    + unfold Tcl_GetIndexFromObjStruct, Tcl_GetStringFromObj.
      now rewrite CI, B.
    + rewrite (Match_uncached m fuel interp objPtr t off msg flags' es)
        by (assumption || congruence).
      rewrite B. unfold match_done. rewrite R, B. reflexivity.
Qed.

(** C4 (amended): with a non-empty table and an interpreter the look-up
    returns, and when it fails the message is
    [<word><label> "<string>": must be <entries>], where the entries are
    listed in table order as "e0", "e0 or e1" or "e0, e1, ..., or en", and
    the word is "ambiguous " when the string is not empty and is a strict
    prefix of more than one entry, and "bad " in every other failure (the
    empty string, no candidate, or one abbreviation refused under
    [TCL_EXACT]). *)
Theorem lookup_error_message (m : Mem) (fuel : nat) (ip : Interp)
    (objPtr : Tcl_Obj) (t off : Z) (msg : string) (flags' : Z)
    (es : list string) :
  table_at m t off es -> es <> [] -> (List.length es < fuel)%nat ->
  (exists r,
      Tcl_GetIndexFromObjStruct TCL_EXACT m fuel (Some ip) objPtr t off msg
                                flags' = Some r) /\
  (forall r,
      Tcl_GetIndexFromObjStruct TCL_EXACT m fuel (Some ip) objPtr t off msg
                                flags' = Some r ->
      code r = TCL_ERROR ->
      interpOut r =
      Some (Tcl_SetObjResult ip
              (lookup_error_text (bytes objPtr) msg es))).
Proof.
  intros T N F. split; [eapply Match_returns; eauto|].
  intros r E C. revert E.
  unfold Tcl_GetIndexFromObjStruct, Tcl_GetStringFromObj.
  assert (forall i, Some (match_done (Some ip) objPtr t off i) = Some r ->
                    interpOut r =
                    Some (Tcl_SetObjResult ip
                            (lookup_error_text (bytes objPtr) msg es)))
    as DONE.
  { intros i [= <-].
    destruct (match_done_spec (Some ip) objPtr t off i) as (n & D & _).
    rewrite D in C. discriminate C. }
  destruct (cached_index objPtr t off) as [i|].
  { intros [= <-]. discriminate C. }
  unfold lookup_error_text, error_word.
  destruct (bytes objPtr) as [|c k].
  { intros E. apply match_error_spec in E as (_ & _ & _ & _ & text & M & ->).
    rewrite (error_message_text m fuel _ msg t off 0 es) in M by assumption.
    injection M as <-. reflexivity. }
  rewrite (scan_table_complete m _ off es) by assumption.
  destruct (scan_list (String c k) es 0 (-1) 0) as [i|i n] eqn:SL;
    [apply DONE|].
  destruct (exact_requested TCL_EXACT flags' || negb (n =? 1));
    [|apply DONE].
  intros E. apply match_error_spec in E as (_ & _ & _ & _ & text & M & ->).
  rewrite (error_message_text m fuel _ msg t off n es) in M by assumption.
  injection M as <-.
  apply scan_list_end in SL as [_ ->]. rewrite Z.add_0_l.
  replace (1 <? Z.of_nat (count_abbrev (String c k) es))
    with (1 <? count_abbrev (String c k) es)%nat; [reflexivity|].
  destruct (Nat.ltb_spec 1 (count_abbrev (String c k) es));
    destruct (Z.ltb_spec 1 (Z.of_nat (count_abbrev (String c k) es)));
    (reflexivity || lia).
Qed.


(** C6: a sound value whose string is empty never matches.  Without an
    interpreter the call fails whatever the memory and the fuel, so before
    any entry is read; with one, and a non-empty table, it fails with the
    "bad" message.  No index is stored and the value is left as it was. *)
Theorem empty_string_never_matches (m : Mem) (fuel : nat)
    (objPtr : Tcl_Obj) (t off : Z) (msg : string) (flags' : Z) :
  bytes objPtr = EmptyString -> cache_sound m objPtr ->
  Tcl_GetIndexFromObjStruct TCL_EXACT m fuel None objPtr t off msg flags'
  = Some (mkResult TCL_ERROR None objPtr None 0) /\
  (forall ip es,
      table_at m t off es -> es <> [] -> (List.length es < fuel)%nat ->
      Tcl_GetIndexFromObjStruct TCL_EXACT m fuel (Some ip) objPtr t off msg
                                flags'
      = Some (mkResult TCL_ERROR None objPtr
                (Some (Tcl_SetObjResult ip
                         ("bad " ++ msg ++ " " ++ dquote ++ dquote
                            ++ ": must be " ++ enumerate es))) 0)).
Proof.
  intros B S.
  assert (cached_index objPtr t off = None) as CI.
  { apply cached_index_miss. intros r R.
    destruct (S r R) as [K _]. now elim K. }
  unfold Tcl_GetIndexFromObjStruct, Tcl_GetStringFromObj.
  rewrite CI, B. split; [reflexivity|].
  intros ip es T N F. unfold match_error.
  now rewrite (error_message_text m fuel _ msg t off 0 es) by assumption.
Qed.

(** C10: a failing look-up leaves the value as it was (type, record and
    string), stores no index and allocates no record; it writes the result
    of the interpreter and nothing else, and nothing at all when no
    interpreter is supplied. *)
Theorem failing_lookup_leaves_value (m : Mem) (fuel : nat)
    (interp : option Interp) (objPtr : Tcl_Obj) (t off : Z) (msg : string)
    (flags' : Z) (r : MatchResult) :
  Tcl_GetIndexFromObjStruct TCL_EXACT m fuel interp objPtr t off msg flags'
  = Some r ->
  code r = TCL_ERROR ->
  objOut r = objPtr /\
  internalRep (objOut r) = internalRep objPtr /\
  bytes (objOut r) = bytes objPtr /\
  indexOut r = None /\ ckallocs r = 0%nat /\
  (interp = None -> interpOut r = None) /\
  (forall ip, interp = Some ip ->
     exists text,
       interpOut r = Some (Tcl_SetObjResult ip text) /\
       flags (Tcl_SetObjResult ip text) = flags ip /\
       ensembleRewrite (Tcl_SetObjResult ip text) = ensembleRewrite ip).
Proof.
  intros E C.
  destruct (Match_error_frame m fuel interp objPtr t off msg flags' r E C)
    as (O & I & A & P).
  rewrite O. repeat split; try assumption.
  - intros ->. exact P.
  - intros ip ->. destruct P as [text P]. exists text.
    repeat split. exact P.
Qed.

(** The operations of the index type keep values sound. *)
Lemma abbreviates_nonempty (key entry : string) :
  abbreviates key entry = true -> entry <> EmptyString.
Proof.
  intros A ->. apply compare_key_abbrev in A.
  destruct key; discriminate A.
Qed.

(** X8: [UpdateStringOfIndex] keeps a value sound.  When the record's
    table is in memory and has no duplicates, and the product of the stride
    and the stored index fits an [int], the string it writes (the entry at
    the stored index) looks up to the stored index again, so the record stays
    the one a look-up of the new string yields. *)
Lemma UpdateStringOfIndex_sound (m : Mem) (objPtr objPtr' : Tcl_Obj)
    (r : IndexRep) (es : list string) :
  internalRep objPtr = IndexType r ->
  table_at m (tablePtr r) (offset r) es -> NoDup es ->
  in_int (offset r * index r) ->
  cache_sound m objPtr ->
  UpdateStringOfIndex m objPtr = Some objPtr' ->
  cache_sound m objPtr'.
Proof.
  intros R T D B S U.
  destruct (S r R) as (K & fuel & x & SC & X).
  apply (scan_table_sound m _ _ es) in SC; [|assumption].
  assert (exists k e, index r = Z.of_nat k /\ nth_error es k = Some e /\
                      e <> EmptyString) as (k & e & I & N & NE).
  { destruct x as [j|idx n]; simpl in X.
    - injection X as ->. symmetry in SC.
      apply scan_list_done in SC as (k & -> & N).
      exists k, (bytes objPtr). repeat split; assumption.
    - destruct (n =? 1) eqn:N1; [|discriminate].
      injection X as ->. apply Z.eqb_eq in N1. subst n. symmetry in SC.
      pose proof (scan_list_end _ _ _ _ _ _ _ SC) as [_ Hn].
      apply scan_list_last_abbrev in SC
        as [[C0 _]|(k & e & -> & N & A & _)]; [lia|].
      exists k, e. repeat split; try assumption.
      now apply abbreviates_nonempty in A. }
  unfold UpdateStringOfIndex, EXPAND_OF in U. rewrite R in U.
  rewrite I in U, B.
  rewrite (table_at_nth m _ es _ _ _ T N B) in U. injection U as <-.
  intros r' [= <-]. simpl. split; [exact NE|].
  exists (1 + List.length es)%nat, (GotoDone (Z.of_nat k)).
  split; [|simpl; now rewrite I].
  rewrite (scan_table_complete m e _ es) by (assumption || lia).
  now rewrite (scan_list_exact e es k) by assumption.
Qed.

Lemma DupIndex_sound (m : Mem) (srcPtr dupPtr dupPtr' : Tcl_Obj) :
  bytes dupPtr = bytes srcPtr -> cache_sound m srcPtr ->
  DupIndex srcPtr dupPtr = Some dupPtr' ->
  cache_sound m dupPtr'.
Proof.
  unfold DupIndex. intros B S.
  destruct (internalRep srcPtr) as [| |r] eqn:R; try discriminate.
  intros [= <-] r' [= <-]. simpl. rewrite B. exact (S r R).
Qed.

End LookupTheory.

(** ** The usage message *)

Section UsageTheory.

Variable INTERP_ALTERNATE_WRONG_ARGS : Z.
Variable AVOID_HACKS_FOR_ITCL : bool.
Variable Tcl_ScanCountedElement : string -> Z * Z.
Variable Tcl_ConvertCountedElement : string -> Z -> string.

Lemma append_element_token (acc : string) (first : bool) (o : Tcl_Obj) :
  append_element AVOID_HACKS_FOR_ITCL Tcl_ScanCountedElement
                 Tcl_ConvertCountedElement acc first o
  = acc ++ word_token AVOID_HACKS_FOR_ITCL Tcl_ScanCountedElement
                      Tcl_ConvertCountedElement o first.
Proof.
  unfold append_element, word_token, list_element, needs_quoting, quoted,
    MAY_QUOTE_WORD, Tcl_GetStringFromObj.
  destruct (Tcl_ScanCountedElement (bytes o)) as [len fl]. simpl fst.
  simpl snd.
  destruct AVOID_HACKS_FOR_ITCL, first; simpl;
    destruct (len =? Z.of_nat (String.length (bytes o))); reflexivity.
Qed.

Lemma tokens_from_app (fs gs : list (bool -> string)) (first : bool) :
  tokens_from first (fs ++ gs)
  = (tokens_from first fs
       ++ tokens_from (first && negb (nonempty fs)) gs)%list.
Proof.
  destruct fs as [|f fs]; simpl.
  - now rewrite andb_true_r.
  - rewrite andb_false_r. f_equal.
    induction fs as [|g fs IH]; simpl; [reflexivity | now rewrite IH].
Qed.

Lemma spaced_cons (tok : string) (rest : list string) (more : bool) :
  spaced (tok :: rest) more
  = tok ++ (if nonempty rest || more then " " else "") ++ spaced rest more.
Proof.
  destruct rest as [|t rest].
  - simpl. destruct more; simpl; [reflexivity | now rewrite append_nil_r].
  - reflexivity.
Qed.

Lemma spaced_app (ts1 ts2 : list string) (more : bool) :
  spaced ts1 (nonempty ts2 || more) ++ spaced ts2 more
  = spaced (ts1 ++ ts2) more.
Proof.
  induction ts1 as [|tok ts1 IH]; [reflexivity|].
  change ((tok :: ts1) ++ ts2)%list with (tok :: (ts1 ++ ts2))%list.
  rewrite !spaced_cons, !append_assoc, IH. do 2 f_equal.
  destruct ts1; simpl; [|reflexivity]. now destruct ts2.
Qed.

Lemma spaced_message (ts : list string) (message : option string) :
  spaced ts (non_null message)
    ++ match message with Some text => text | None => EmptyString end
  = String.concat " " (ts ++ message_piece message).
Proof.
  induction ts as [|tok ts IH].
  - destruct message; reflexivity.
  - rewrite spaced_cons, !append_assoc, IH.
    destruct ts as [|t ts].
    + destruct message as [text|]; simpl; [reflexivity|].
      now rewrite append_nil_r.
    + reflexivity.
Qed.

Lemma objv_loop_spaced (m : Mem) (message : option string)
    (objv : list Tcl_Obj) :
  forall (acc : string) (first : bool),
    fst (objv_loop AVOID_HACKS_FOR_ITCL Tcl_ScanCountedElement
                   Tcl_ConvertCountedElement m objv message acc first)
    = acc ++ spaced
               (tokens_from first
                  (map (arg_token AVOID_HACKS_FOR_ITCL Tcl_ScanCountedElement
                                  Tcl_ConvertCountedElement m) objv))
               (non_null message).
Proof.
  induction objv as [|o objv IH]; intros acc first.
  - simpl. now rewrite append_nil_r.
  - cbn [objv_loop map tokens_from]. rewrite IH, spaced_cons.
    assert (match internalRep o with
            | IndexType indexRep =>
                Tcl_AppendStringsToObj acc [EXPAND_OF m indexRep]
            | _ => append_element AVOID_HACKS_FOR_ITCL
                     Tcl_ScanCountedElement Tcl_ConvertCountedElement
                     acc first o
            end
            = acc ++ arg_token AVOID_HACKS_FOR_ITCL Tcl_ScanCountedElement
                               Tcl_ConvertCountedElement m o first) as ->.
    { unfold arg_token, canonical.
      destruct (internalRep o) as [| |r];
        try apply append_element_token.
      simpl. destruct (EXPAND_OF m r); [reflexivity|].
      now rewrite append_nil_r. }
    destruct objv as [|o' objv]; simpl.
    + destruct (non_null message); simpl; now rewrite !append_assoc.
    + now rewrite !append_assoc.
Qed.

Lemma rewrite_loop_spaced (objc : Z) (message : option string)
    (sources : list Tcl_Obj) :
  forall (acc : string) (first : bool),
    rewrite_loop AVOID_HACKS_FOR_ITCL Tcl_ScanCountedElement
                 Tcl_ConvertCountedElement sources objc message acc first
    = (acc ++ spaced
                (tokens_from first
                   (map (word_token AVOID_HACKS_FOR_ITCL
                                    Tcl_ScanCountedElement
                                    Tcl_ConvertCountedElement) sources))
                (negb (objc =? 0) || non_null message),
       first && negb (nonempty sources)).
Proof.
  induction sources as [|o sources IH]; intros acc first.
  - simpl. now rewrite append_nil_r, andb_true_r.
  - cbn [rewrite_loop map tokens_from]. rewrite IH, spaced_cons.
    rewrite append_element_token.
    destruct sources as [|o' sources]; simpl.
    + rewrite andb_false_r.
      destruct (negb (objc =? 0) || non_null message); simpl;
        now rewrite !append_assoc.
    + rewrite andb_false_r. now rewrite !append_assoc.
Qed.

(** The message is the seed, the tokens and the trailing message joined
    by single spaces, and the closing quote. *)
Lemma Tcl_WrongNumArgs_text (m : Mem) (interp : Interp)
    (objv : list Tcl_Obj) (message : option string) :
  sourceObjs (ensembleRewrite interp) = None \/
  0 <= numInsertedObjs (ensembleRewrite interp) ->
  Tcl_WrongNumArgs INTERP_ALTERNATE_WRONG_ARGS AVOID_HACKS_FOR_ITCL
                   Tcl_ScanCountedElement Tcl_ConvertCountedElement
                   m interp objv message
  = Tcl_SetObjResult interp
      (usage_text INTERP_ALTERNATE_WRONG_ARGS AVOID_HACKS_FOR_ITCL
                  Tcl_ScanCountedElement Tcl_ConvertCountedElement
                  m interp objv message).
Proof.
  intros P.
  unfold Tcl_WrongNumArgs, usage_text, usage_tokens, rewritten.
  fold (usage_seed INTERP_ALTERNATE_WRONG_ARGS interp).
  set (seed := usage_seed INTERP_ALTERNATE_WRONG_ARGS interp).
  assert (forall (objv' : list Tcl_Obj) (acc : string) (first : bool)
                 (ts : list string),
    (let '(objPtr2, _) :=
       objv_loop AVOID_HACKS_FOR_ITCL Tcl_ScanCountedElement
                 Tcl_ConvertCountedElement m objv' message
                 (acc ++ spaced ts (nonempty objv' || non_null message))
                 first in
     Tcl_SetObjResult interp
       (Tcl_AppendStringsToObj
          match message with
          | Some text => Tcl_AppendStringsToObj objPtr2 [Some text]
          | None => objPtr2
          end [Some dquote]))
    = Tcl_SetObjResult interp
        (acc ++ String.concat " "
                  ((ts ++ tokens_from first
                      (map (arg_token AVOID_HACKS_FOR_ITCL
                                      Tcl_ScanCountedElement
                                      Tcl_ConvertCountedElement m) objv'))
                     ++ message_piece message)
             ++ dquote)) as TAIL.
  { intros objv' acc first ts.
    pose proof (objv_loop_spaced m message objv'
                  (acc ++ spaced ts (nonempty objv' || non_null message))
                  first) as L.
    destruct (objv_loop _ _ _ m objv' message _ first) as [p2 b].
    simpl in L. subst p2. f_equal.
    rewrite <- spaced_message, <- spaced_app.
    assert (nonempty
              (tokens_from first
                 (map (arg_token AVOID_HACKS_FOR_ITCL Tcl_ScanCountedElement
                                 Tcl_ConvertCountedElement m) objv'))
            = nonempty objv') as -> by now destruct objv'.
    destruct message as [text|]; simpl; now rewrite !append_assoc. }
  destruct (sourceObjs (ensembleRewrite interp)) as [sources|] eqn:SO.
  - destruct P as [P|P]; [discriminate|].
    destruct (numInsertedObjs (ensembleRewrite interp)
              <=? Z.of_nat (List.length objv)) eqn:LE.
    + rewrite rewrite_loop_spaced. cbn [fst snd].
      rewrite tokens_from_app. simpl andb.
      assert (nonempty (map (word_token AVOID_HACKS_FOR_ITCL
                               Tcl_ScanCountedElement
                               Tcl_ConvertCountedElement) sources)
              = nonempty sources) as -> by now destruct sources.
      rewrite <- TAIL. 
      replace (negb (Z.of_nat (List.length objv)
                     - numInsertedObjs (ensembleRewrite interp) =? 0))
        with (nonempty
                (skipn (Z.to_nat (numInsertedObjs (ensembleRewrite interp)))
                       objv)); [reflexivity|].
      apply Z.leb_le in LE.
      pose proof (length_skipn
                    (Z.to_nat (numInsertedObjs (ensembleRewrite interp)))
                    objv) as SK.
      destruct (skipn _ objv) as [|a l]; simpl in *;
        destruct (Z.eqb_spec (Z.of_nat (List.length objv)
                     - numInsertedObjs (ensembleRewrite interp)) 0);
        (reflexivity || lia).
    + pose proof (TAIL objv seed true []) as H.
      cbn [spaced app] in H. rewrite append_nil_r in H. exact H.
  - pose proof (TAIL objv seed true []) as H.
    cbn [spaced app] in H. rewrite append_nil_r in H. exact H.
Qed.

(** C8 (amended): the message starts with the result of the interpreter
    followed by [ or "] when the alternate flag is set and with
    [wrong # args: should be "] otherwise; then come the tokens and the
    trailing message, when one is supplied, joined by single spaces (a
    supplied message gets its separating space even when it is empty);
    then the closing quote.  For [foo bar], "additional stuff", no
    rewriting and no alternate flag the result is
    [wrong # args: should be "foo bar additional stuff"]. *)
Theorem usage_message_layout :
  (forall m interp objv message,
      sourceObjs (ensembleRewrite interp) = None \/
      0 <= numInsertedObjs (ensembleRewrite interp) ->
      Tcl_WrongNumArgs INTERP_ALTERNATE_WRONG_ARGS AVOID_HACKS_FOR_ITCL
                       Tcl_ScanCountedElement Tcl_ConvertCountedElement
                       m interp objv message
      = Tcl_SetObjResult interp
          ((if Z.land (flags interp) INTERP_ALTERNATE_WRONG_ARGS =? 0
            then "wrong # args: should be " ++ dquote
            else objResult interp ++ " or " ++ dquote)
             ++ String.concat " "
                  (usage_tokens AVOID_HACKS_FOR_ITCL Tcl_ScanCountedElement
                                Tcl_ConvertCountedElement m interp objv
                     ++ message_piece message)
             ++ dquote)) /\
  (forall m interp,
      Z.land (flags interp) INTERP_ALTERNATE_WRONG_ARGS = 0 ->
      sourceObjs (ensembleRewrite interp) = None ->
      list_element Tcl_ScanCountedElement Tcl_ConvertCountedElement "foo"
      = "foo" ->
      list_element Tcl_ScanCountedElement Tcl_ConvertCountedElement "bar"
      = "bar" ->
      objResult
        (Tcl_WrongNumArgs INTERP_ALTERNATE_WRONG_ARGS AVOID_HACKS_FOR_ITCL
                          Tcl_ScanCountedElement Tcl_ConvertCountedElement
                          m interp [mkObj "foo" NoType; mkObj "bar" NoType]
                          (Some "additional stuff"))
      = "wrong # args: should be " ++ dquote
          ++ "foo bar additional stuff" ++ dquote).
Proof.
  split.
  - intros m interp objv message P.
    rewrite Tcl_WrongNumArgs_text by assumption.
    unfold usage_text, usage_seed.
    now destruct (Z.land (flags interp) INTERP_ALTERNATE_WRONG_ARGS =? 0).
  - intros m interp A SO F B.
    rewrite Tcl_WrongNumArgs_text by now left.
    unfold usage_text, usage_seed, usage_tokens, rewritten.
    rewrite SO, A. simpl. unfold arg_token, word_token. simpl.
    rewrite B. destruct AVOID_HACKS_FOR_ITCL; simpl; [rewrite F|];
      reflexivity.
Qed.

(** C7 (amended): an argument left in the prefix is emitted as the
    canonical table entry of its record, never quoted, when it is an index
    object; otherwise it is emitted as the list-quoting routines make it (so
    quoted when they say it must be), except that the first token of the
    whole message is emitted as it is unless [AVOID_HACKS_FOR_ITCL] is
    defined. *)
Theorem argument_tokens (m : Mem) (interp : Interp)
    (objv : list Tcl_Obj) (message : option string)
    (pre post : list Tcl_Obj) (arg : Tcl_Obj) :
  sourceObjs (ensembleRewrite interp) = None \/
  0 <= numInsertedObjs (ensembleRewrite interp) ->
  snd (rewritten interp objv) = (pre ++ arg :: post)%list ->
  let before :=
    (map (word_token AVOID_HACKS_FOR_ITCL Tcl_ScanCountedElement
                     Tcl_ConvertCountedElement)
         (fst (rewritten interp objv))
       ++ map (arg_token AVOID_HACKS_FOR_ITCL Tcl_ScanCountedElement
                         Tcl_ConvertCountedElement m) pre)%list in
  let token :=
    match internalRep arg with
    | IndexType indexRep => canonical m indexRep
    | _ =>
        if negb (nonempty before) && negb AVOID_HACKS_FOR_ITCL
        then bytes arg
        else if needs_quoting Tcl_ScanCountedElement (bytes arg)
             then quoted Tcl_ScanCountedElement Tcl_ConvertCountedElement
                         (bytes arg)
             else bytes arg
    end in
  Tcl_WrongNumArgs INTERP_ALTERNATE_WRONG_ARGS AVOID_HACKS_FOR_ITCL
                   Tcl_ScanCountedElement Tcl_ConvertCountedElement
                   m interp objv message
  = Tcl_SetObjResult interp
      (usage_seed INTERP_ALTERNATE_WRONG_ARGS interp
         ++ String.concat " "
              (tokens_from true before
                 ++ token
                 :: tokens_from false
                      (map (arg_token AVOID_HACKS_FOR_ITCL
                                      Tcl_ScanCountedElement
                                      Tcl_ConvertCountedElement m) post)
                 ++ message_piece message)
         ++ dquote).
Proof.
  intros P R before token.
  rewrite Tcl_WrongNumArgs_text by assumption.
  unfold usage_text, usage_tokens. rewrite R. do 3 f_equal.
  rewrite map_app, app_assoc. fold before.
  rewrite tokens_from_app. cbn [map tokens_from andb].
  rewrite <- app_assoc. reflexivity.
Qed.

(** C9 (amended): with a rewrite context and at least [numInsertedObjs]
    arguments, that many leading arguments are dropped and the source
    words are emitted in their place, in order, each as the list-quoting
    routines make it except the first token of the message (emitted as it is
    unless [AVOID_HACKS_FOR_ITCL] is defined); the tokens and a supplied
    trailing message, even an empty one, are joined by single spaces.  With
    fewer arguments nothing is dropped or substituted. *)
Theorem ensemble_rewrite_substitution (m : Mem) (interp : Interp)
    (objv : list Tcl_Obj) (message : option string)
    (sources : list Tcl_Obj) :
  sourceObjs (ensembleRewrite interp) = Some sources ->
  0 <= numInsertedObjs (ensembleRewrite interp) ->
  (numInsertedObjs (ensembleRewrite interp) <= Z.of_nat (List.length objv) ->
   Tcl_WrongNumArgs INTERP_ALTERNATE_WRONG_ARGS AVOID_HACKS_FOR_ITCL
                    Tcl_ScanCountedElement Tcl_ConvertCountedElement
                    m interp objv message
   = Tcl_SetObjResult interp
       (usage_seed INTERP_ALTERNATE_WRONG_ARGS interp
          ++ String.concat " "
               (tokens_from true
                  (map (fun src first =>
                          if first && negb AVOID_HACKS_FOR_ITCL
                          then bytes src
                          else list_element Tcl_ScanCountedElement
                                            Tcl_ConvertCountedElement
                                            (bytes src))
                       sources
                     ++ map (arg_token AVOID_HACKS_FOR_ITCL
                                       Tcl_ScanCountedElement
                                       Tcl_ConvertCountedElement m)
                          (skipn (Z.to_nat (numInsertedObjs
                                              (ensembleRewrite interp)))
                                 objv))
                  ++ message_piece message)
          ++ dquote)) /\
  (Z.of_nat (List.length objv) < numInsertedObjs (ensembleRewrite interp) ->
   Tcl_WrongNumArgs INTERP_ALTERNATE_WRONG_ARGS AVOID_HACKS_FOR_ITCL
                    Tcl_ScanCountedElement Tcl_ConvertCountedElement
                    m interp objv message
   = Tcl_SetObjResult interp
       (usage_seed INTERP_ALTERNATE_WRONG_ARGS interp
          ++ String.concat " "
               (tokens_from true
                  (map (arg_token AVOID_HACKS_FOR_ITCL
                                  Tcl_ScanCountedElement
                                  Tcl_ConvertCountedElement m) objv)
                  ++ message_piece message)
          ++ dquote)).
Proof.
  intros SO P.
  split; intros L; rewrite Tcl_WrongNumArgs_text by (now right);
    unfold usage_text, usage_tokens, rewritten; rewrite SO.
  - apply Z.leb_le in L. rewrite L. reflexivity.
  - apply Z.leb_gt in L. rewrite L. reflexivity.
Qed.

End UsageTheory.

(** * Worked examples *)

Lemma table_at_mem_of_table_commands : table_at commands_mem 4096 8 commands.
Proof. repeat split. Qed.

Lemma table_at_mem_of_table_prefixes : table_at prefixes_mem 4096 8 prefixes.
Proof. repeat split. Qed.

Lemma table_at_mem_of_table_with_empty :
  table_at with_empty_mem 4096 8 with_empty.
Proof. repeat split. Qed.

Lemma cache_sound_fresh (m : Mem) (s : string) : cache_sound m (mkObj s NoType).
Proof. intros r H. discriminate H. Qed.

Lemma cache_sound_att_matched : cache_sound commands_mem att_matched.
Proof.
  intros r [= <-]. split; [discriminate|].
  exists 3%nat, (LoopEnd 0 1). split; reflexivity.
Qed.

Lemma NoDup_prefixes : NoDup prefixes.
Proof.
  repeat constructor; simpl; intuition discriminate.
Qed.

Lemma NoDup_with_empty : NoDup with_empty.
Proof.
  repeat constructor; simpl; intuition discriminate.
Qed.

(** "ab" is an entry of [prefixes] and a strict prefix of the entries
    before and after it: the look-up answers 1, with or without
    [TCL_EXACT]. *)
Lemma exact_entry_wins_witness :
  exists n,
    Tcl_GetIndexFromObjStruct 1 prefixes_mem 2 None (mkObj "ab" NoType)
                              4096 8 "option" 0
    = Some (mkResult TCL_OK (Some 1)
              (mkObj "ab" (IndexType (mkIndexRep 4096 8 1))) None n).
Proof.
  apply (exact_entry_wins 1 prefixes_mem 2 None (mkObj "ab" NoType)
                          4096 8 "option" 0 prefixes 1).
  - exact table_at_mem_of_table_prefixes.
  - lia.
  - exact NoDup_prefixes.
  - apply cache_sound_fresh.
  - discriminate.
  - reflexivity.
Defined.

(** The empty string is the first entry of [with_empty], and the look-up of
    the empty string fails. *)
Lemma empty_entry_not_found :
  ~ stated_exact_match 1 with_empty_mem 3 None (mkObj EmptyString NoType)
      4096 8 "option" 0 with_empty 0.
Proof.
  intros H.
  destruct H as (r & E & C & _).
  - exact table_at_mem_of_table_with_empty.
  - simpl. lia.
  - exact NoDup_with_empty.
  - apply cache_sound_fresh.
  - reflexivity.
  - vm_compute in E. injection E as <-. discriminate C.
Qed.

(** "att" abbreviates "attach" only. *)
Lemma unique_abbreviation_accepted_witness :
  exists r,
    Tcl_GetIndexFromObjStruct 1 commands_mem 3 None att_value 4096 8
                              "option" 0 = Some r /\
    (code r = TCL_OK \/ code r = TCL_ERROR) /\
    (code r = TCL_OK <->
     count_abbrev "att" commands = 1%nat /\ exact_requested 1 0 = false) /\
    (code r = TCL_OK ->
     forall k e, nth_error commands k = Some e ->
                 abbreviates "att" e = true ->
                 indexOut r = Some (Z.of_nat k)).
Proof.
  apply (unique_abbreviation_accepted 1 commands_mem 3 None att_value 4096 8
           "option" 0 commands).
  - exact table_at_mem_of_table_commands.
  - simpl. lia.
  - left. discriminate.
  - reflexivity.
  - discriminate.
  - simpl. intuition discriminate.
Defined.

(** After a look-up of "att" that accepts abbreviations, the look-up of the
    same value in the same table with [TCL_EXACT] succeeds, although "att"
    is no entry. *)
Lemma cached_abbreviation_passes_exact :
  exists r1,
    Tcl_GetIndexFromObjStruct 1 commands_mem 3 None att_value 4096 8
                              "option" 0 = Some r1 /\
    code r1 = TCL_OK /\
    ~ stated_unique_abbreviation 1 commands_mem 3 None (objOut r1) 4096 8
        "option" 1 commands.
Proof.
  exists (mkResult TCL_OK (Some 0) att_matched None 1).
  split; [reflexivity|]. split; [reflexivity|].
  simpl objOut. intros H.
  destruct H as (r & E & IFF).
  - exact table_at_mem_of_table_commands.
  - simpl. lia.
  - exact cache_sound_att_matched.
  - discriminate.
  - simpl. intuition discriminate.
  - vm_compute in E. injection E as <-.
    destruct IFF as [IFF _]. destruct (IFF eq_refl) as [_ X].
    discriminate X.
Qed.

Lemma table_at_mem_of_table_ambiguous :
  table_at ambiguous_mem 4096 8 ambiguous_table.
Proof. repeat split. Qed.

Lemma table_at_mem_of_table_two_entries :
  table_at two_entries_mem 4096 8 two_entries.
Proof. repeat split. Qed.

(** A record for ([4096], [8]) answers for that table and stride, whatever
    the memory holds.  Looked up in the table at 8192, which holds the same
    words in the other order, the value that matched "att" at index 0 is
    scanned again and found at index 1, and its record is overwritten. *)
Lemma cache_honoured_by_identity_witness :
  Tcl_GetIndexFromObjStruct 1 (fun _ => None) 0 None att_matched 4096 8
                            "option" 1
  = Some (mkResult TCL_OK (Some 0) att_matched None 0) /\
  Tcl_GetIndexFromObjStruct 1 two_tables_mem 3 None att_matched 8192 8
                            "option" 0
  = Some (mkResult TCL_OK (Some 1)
            (mkObj "att" (IndexType (mkIndexRep 8192 8 1))) None 0).
Proof.
  split.
  - apply (proj1 (cache_honoured_by_identity 1 8) (fun _ => None) 0%nat None
                 att_matched 4096 8 "option" 1 (mkIndexRep 4096 8 0));
      reflexivity.
  - apply (proj2 (proj2 (proj2 (proj2 (cache_honoured_by_identity 1 8))))
                 two_tables_mem 3%nat None att_matched 8192 8 "option" 0
                 (mkIndexRep 4096 8 0) swapped_commands).
    + reflexivity.
    + left. discriminate.
    + repeat split.
    + simpl. lia.
Defined.

(** "ab" abbreviates two entries of three. *)
Lemma lookup_error_message_witness :
  (exists r,
      Tcl_GetIndexFromObjStruct 1 ambiguous_mem 4 (Some plain_interp)
                                (mkObj "ab" NoType) 4096 8 "option" 0
      = Some r) /\
  (forall r,
      Tcl_GetIndexFromObjStruct 1 ambiguous_mem 4 (Some plain_interp)
                                (mkObj "ab" NoType) 4096 8 "option" 0
      = Some r ->
      code r = TCL_ERROR ->
      interpOut r =
      Some (Tcl_SetObjResult plain_interp
              ("ambiguous option " ++ dquote ++ "ab" ++ dquote
                 ++ ": must be abc, abd, or x"))).
Proof.
  apply (lookup_error_message 1 ambiguous_mem 4 plain_interp
           (mkObj "ab" NoType) 4096 8 "option" 0 ambiguous_table).
  - exact table_at_mem_of_table_ambiguous.
  - discriminate.
  - simpl. lia.
Defined.

(** Under [TCL_EXACT] the one abbreviation "ab" of "abc" is refused, and
    the message says "bad" although one candidate matched. *)
Lemma bad_with_one_candidate :
  exists r ip,
    Tcl_GetIndexFromObjStruct 1 two_entries_mem 3 (Some plain_interp)
                              (mkObj "ab" NoType) 4096 8 "option" 1
    = Some r /\
    code r = TCL_ERROR /\ interpOut r = Some ip /\
    objResult ip = "bad option " ++ dquote ++ "ab" ++ dquote
                     ++ ": must be abc or x" /\
    ~ bad_iff_no_candidate (objResult ip) "ab" two_entries.
Proof.
  eexists. eexists. split; [vm_compute; reflexivity|].
  split; [reflexivity|]. split; [reflexivity|]. split; [reflexivity|].
  intros [H _]. specialize (H eq_refl). discriminate H.
Qed.


(** Where the product does not fit an [int] the macro selects another
    cell.  With entries 2^30 bytes apart the look-up of "four" returns index
    4, because the scan steps the pointer entry by entry; the record it
    leaves is rendered "zero", because the product of 2^30 and 4 wraps to 0
    as an [int]. *)
Lemma large_stride_selects_another_cell :
  Tcl_GetIndexFromObjStruct 1 numbers_mem 6 None (mkObj "four" NoType)
                            4096 1073741824 "number" 0
  = Some (mkResult TCL_OK (Some 4)
            (mkObj "four" (IndexType (mkIndexRep 4096 1073741824 4)))
            None 1) /\
  UpdateStringOfIndex numbers_mem
    (mkObj "four" (IndexType (mkIndexRep 4096 1073741824 4)))
  = Some (mkObj "zero" (IndexType (mkIndexRep 4096 1073741824 4))).
Proof. split; vm_compute; reflexivity. Qed.

(** The empty string against [commands]. *)
Lemma empty_string_never_matches_witness :
  Tcl_GetIndexFromObjStruct 1 commands_mem 3 None (mkObj EmptyString NoType)
                            4096 8 "option" 0
  = Some (mkResult TCL_ERROR None (mkObj EmptyString NoType) None 0) /\
  (forall ip es,
      table_at commands_mem 4096 8 es -> es <> [] ->
      (List.length es < 3)%nat ->
      Tcl_GetIndexFromObjStruct 1 commands_mem 3 (Some ip)
                                (mkObj EmptyString NoType) 4096 8 "option" 0
      = Some (mkResult TCL_ERROR None (mkObj EmptyString NoType)
                (Some (Tcl_SetObjResult ip
                         ("bad " ++ "option" ++ " " ++ dquote ++ dquote
                            ++ ": must be " ++ enumerate es))) 0)).
Proof.
  apply (empty_string_never_matches 1 commands_mem 3
           (mkObj EmptyString NoType) 4096 8 "option" 0).
  - reflexivity.
  - apply cache_sound_fresh.
Defined.

(** A failing look-up of a value that carries a record for another
    table. *)
Lemma failing_lookup_leaves_value_witness :
  exists r,
    Tcl_GetIndexFromObjStruct 1 two_entries_mem 3 (Some plain_interp)
                              att_elsewhere 4096 8 "option" 0 = Some r /\
    code r = TCL_ERROR /\
    objOut r = att_elsewhere /\
    internalRep (objOut r) = internalRep att_elsewhere /\
    bytes (objOut r) = bytes att_elsewhere /\
    indexOut r = None /\ ckallocs r = 0%nat /\
    (Some plain_interp = None -> interpOut r = None) /\
    (forall ip, Some plain_interp = Some ip ->
       exists text,
         interpOut r = Some (Tcl_SetObjResult ip text) /\
         flags (Tcl_SetObjResult ip text) = flags ip /\
         ensembleRewrite (Tcl_SetObjResult ip text) = ensembleRewrite ip).
Proof.
  eexists. split; [vm_compute; reflexivity|]. split; [reflexivity|].
  apply (failing_lookup_leaves_value 1 two_entries_mem 3 (Some plain_interp)
           att_elsewhere 4096 8 "option" 0).
  - reflexivity.
  - reflexivity.
Defined.

(** The usage message of a command whose first word was matched from "att"
    and whose second word holds a space. *)
Lemma argument_tokens_witness :
  Tcl_WrongNumArgs 1024 false sample_scan sample_convert commands_mem
                   plain_interp [att_matched; mkObj "a b" NoType] None
  = Tcl_SetObjResult plain_interp
      ("wrong # args: should be " ++ dquote ++ "attach {a b}" ++ dquote).
Proof.
  apply (argument_tokens 1024 false sample_scan sample_convert commands_mem
           plain_interp [att_matched; mkObj "a b" NoType] None
           [att_matched] [] (mkObj "a b" NoType)).
  - left. reflexivity.
  - reflexivity.
Defined.

(** A first word that holds a space is not quoted, although the
    list-quoting routines say it must be. *)
Lemma first_word_not_quoted :
  needs_quoting sample_scan "a b" = true /\
  Tcl_WrongNumArgs 1024 false sample_scan sample_convert commands_mem
                   plain_interp [mkObj "a b" NoType] None
  = Tcl_SetObjResult plain_interp
      ("wrong # args: should be " ++ dquote ++ "a b" ++ dquote) /\
  Tcl_WrongNumArgs 1024 false sample_scan sample_convert commands_mem
                   plain_interp [mkObj "a b" NoType] None
  <> Tcl_SetObjResult plain_interp
       (stated_quoting_text 1024 sample_scan sample_convert commands_mem
          plain_interp [mkObj "a b" NoType] None).
Proof.
  split; [reflexivity|]. split; [reflexivity|].
  vm_compute. intros H. discriminate H.
Qed.

(** The scenario of the specification. *)
Lemma usage_message_layout_witness :
  objResult
    (Tcl_WrongNumArgs 1024 false sample_scan sample_convert commands_mem
                      plain_interp [mkObj "foo" NoType; mkObj "bar" NoType]
                      (Some "additional stuff"))
  = "wrong # args: should be " ++ dquote ++ "foo bar additional stuff"
      ++ dquote.
Proof.
  apply (proj2 (usage_message_layout 1024 false sample_scan sample_convert)
               commands_mem plain_interp); reflexivity.
Defined.

(** An empty trailing message that is not NULL still gets its space. *)
Lemma space_before_empty_message :
  Tcl_WrongNumArgs 1024 false sample_scan sample_convert commands_mem
                   plain_interp [mkObj "foo" NoType] (Some EmptyString)
  = Tcl_SetObjResult plain_interp
      ("wrong # args: should be " ++ dquote ++ "foo " ++ dquote) /\
  Tcl_WrongNumArgs 1024 false sample_scan sample_convert commands_mem
                   plain_interp [mkObj "foo" NoType] (Some EmptyString)
  <> Tcl_SetObjResult plain_interp
       (stated_usage_text 1024 false sample_scan sample_convert commands_mem
          plain_interp [mkObj "foo" NoType] (Some EmptyString)).
Proof.
  split; [reflexivity|].
  vm_compute. intros H. discriminate H.
Qed.

(** An ensemble invoked as [ens] and implemented by [impl sub]: the
    message names [ens] in place of [impl]. *)
Lemma ensemble_rewrite_substitution_witness :
  (1 <= 2 ->
   Tcl_WrongNumArgs 1024 false sample_scan sample_convert commands_mem
                    ensemble_interp
                    [mkObj "impl" NoType; mkObj "sub" NoType]
                    (Some "arg ?arg?")
   = Tcl_SetObjResult ensemble_interp
       ("wrong # args: should be " ++ dquote ++ "ens sub arg ?arg?"
          ++ dquote)) /\
  (2 < 1 ->
   Tcl_WrongNumArgs 1024 false sample_scan sample_convert commands_mem
                    ensemble_interp
                    [mkObj "impl" NoType; mkObj "sub" NoType]
                    (Some "arg ?arg?")
   = Tcl_SetObjResult ensemble_interp
       ("wrong # args: should be " ++ dquote ++ "impl sub arg ?arg?"
          ++ dquote)).
Proof.
  apply (ensemble_rewrite_substitution 1024 false sample_scan sample_convert
           commands_mem ensemble_interp
           [mkObj "impl" NoType; mkObj "sub" NoType] (Some "arg ?arg?")
           [mkObj "ens" NoType]).
  - reflexivity.
  - simpl. lia.
Defined.

(** After the last substituted word an empty trailing message that is not
    NULL still gets its space. *)
Lemma space_after_substituted_word :
  Tcl_WrongNumArgs 1024 false sample_scan sample_convert commands_mem
                   ensemble_interp [mkObj "impl" NoType] (Some EmptyString)
  = Tcl_SetObjResult ensemble_interp
      ("wrong # args: should be " ++ dquote ++ "ens " ++ dquote) /\
  Tcl_WrongNumArgs 1024 false sample_scan sample_convert commands_mem
                   ensemble_interp [mkObj "impl" NoType] (Some EmptyString)
  <> Tcl_SetObjResult ensemble_interp
       (stated_usage_text 1024 false sample_scan sample_convert commands_mem
          ensemble_interp [mkObj "impl" NoType] (Some EmptyString)).
Proof.
  split; [reflexivity|].
  vm_compute. intros H. discriminate H.
Qed.

(** * Further properties of the look-up *)

Lemma match_done_fresh (interp : option Interp) (objPtr : Tcl_Obj)
    (t off i : Z) :
  match_done interp objPtr t off i
  = mkResult TCL_OK (Some i)
             (mkObj (bytes objPtr) (IndexType (mkIndexRep t off i)))
             interp (fresh_records objPtr).
Proof.
  unfold match_done, fresh_records. destruct (internalRep objPtr); reflexivity.
Qed.

(** The index of a scan that accepts is the place of an entry the key
    equals or abbreviates. *)
Lemma scan_index_entry (key : string) (es : list string) (x : ScanExit)
    (i : Z) :
  x = scan_list key es 0 (-1) 0 -> scan_index x = Some i ->
  exists k e, i = Z.of_nat k /\ nth_error es k = Some e /\
              (e = key \/ abbreviates key e = true).
Proof.
  intros SC X. symmetry in SC. destruct x as [j|idx n]; simpl in X.
  - injection X as ->. apply scan_list_done in SC as (k & -> & N).
    exists k, key. repeat split; [assumption | now left].
  - destruct (n =? 1) eqn:N1; [|discriminate].
    injection X as ->. apply Z.eqb_eq in N1. subst n.
    pose proof (scan_list_end _ _ _ _ _ _ _ SC) as [_ Hn].
    apply scan_list_last_abbrev in SC
      as [[C0 _]|(k & e & -> & N & A & _)]; [lia|].
    exists k, e. repeat split; [assumption | now right].
Qed.

(** In memory the scan stops at the first entry equal to the key, whether
    or not a later entry is equal to it too. *)
Lemma scan_table_first (m : Mem) (key : string) (off : Z)
    (es : list string) :
  forall (k fuel : nat) (p i idx n : Z),
    table_at m p off es -> nth_error es k = Some key ->
    (forall j, (j < k)%nat -> nth_error es j <> Some key) ->
    (k < fuel)%nat ->
    scan_table m key off fuel p i idx n = Some (GotoDone (i + Z.of_nat k)).
Proof.
  induction es as [|e es IH]; intros k fuel p i idx n T N L F.
  - destruct k; discriminate.
  - destruct fuel as [|fuel]; [lia|]. destruct T as [T0 T].
    cbn [scan_table]. rewrite T0.
    destruct k as [|k]; simpl in N.
    + injection N as ->. rewrite compare_key_refl. do 2 f_equal. lia.
    + assert (key <> e) as Hne.
      { intros ->. apply (L 0%nat); [lia | reflexivity]. }
      assert (forall j, (j < k)%nat -> nth_error es j <> Some key) as L'.
      { intros j Hj. apply (L (S j)). lia. }
      destruct (compare_key_cases key e)
        as [[? _]|[(_ & _ & ->)|(_ & _ & ->)]];
        [contradiction | |];
        rewrite (IH k) by (assumption || lia); do 2 f_equal; lia.
Qed.

Section FurtherLookup.

Variable TCL_EXACT : Z.

(** A look-up that succeeds returns this and nothing else. *)
Lemma Match_success_shape (m : Mem) (fuel : nat) (interp : option Interp)
    (objPtr : Tcl_Obj) (t off : Z) (msg : string) (flags' : Z)
    (r : MatchResult) :
  Tcl_GetIndexFromObjStruct TCL_EXACT m fuel interp objPtr t off msg flags'
  = Some r ->
  code r = TCL_OK ->
  exists i,
    r = mkResult TCL_OK (Some i)
                 (mkObj (bytes objPtr) (IndexType (mkIndexRep t off i)))
                 interp (fresh_records objPtr) /\
    (cached_index objPtr t off = Some i \/
     cached_index objPtr t off = None /\
     exists x,
       scan_table m (bytes objPtr) off fuel t 0 (-1) 0 = Some x /\
       scan_index x = Some i).
Proof.
  unfold Tcl_GetIndexFromObjStruct, Tcl_GetStringFromObj. intros E C.
  assert (forall key n,
    match_error m fuel interp objPtr key msg t off n = Some r -> False)
    as ERR.
  { intros key n H. apply match_error_spec in H as [H _].
    rewrite H in C. discriminate C. }
  destruct (cached_index objPtr t off) as [i|] eqn:CI.
  - injection E as <-. exists i. split; [|now left].
    apply cached_index_hit in CI as (r0 & R & <- & <- & <-).
    unfold fresh_records. rewrite R.
    destruct objPtr as [b ir], r0 as [rt ro ri]; simpl in *. now subst.
  - destruct (bytes objPtr) as [|c s] eqn:B; [elim (ERR _ _ E)|].
    rewrite <- B in *.
    destruct (scan_table m (bytes objPtr) off fuel t 0 (-1) 0)
      as [[i|i n]|] eqn:SC; [ | | discriminate].
    + injection E as <-. exists i. split; [apply match_done_fresh|].
      right. split; [reflexivity|]. exists (GotoDone i).
      split; reflexivity.
    + destruct (exact_requested TCL_EXACT flags') eqn:X;
        [elim (ERR _ _ E)|].
      destruct (n =? 1) eqn:N1; [|elim (ERR _ _ E)].
      simpl in E. injection E as <-. exists i.
      split; [apply match_done_fresh|].
      right. split; [reflexivity|]. exists (LoopEnd i n).
      split; [reflexivity | simpl; now rewrite N1].
Qed.

(** X1: when several entries are equal to the string (the table breaks the
    rule against duplicates), the look-up returns the index of the first of
    them; fuel for the entries up to it is enough. *)
Theorem first_equal_entry_wins (m : Mem) (fuel : nat)
    (interp : option Interp) (objPtr : Tcl_Obj) (t off : Z) (msg : string)
    (flags' : Z) (es : list string) (k : nat) :
  table_at m t off es -> (k < fuel)%nat ->
  cached_index objPtr t off = None ->
  bytes objPtr <> EmptyString ->
  nth_error es k = Some (bytes objPtr) ->
  (forall j, (j < k)%nat -> nth_error es j <> Some (bytes objPtr)) ->
  Tcl_GetIndexFromObjStruct TCL_EXACT m fuel interp objPtr t off msg flags'
  = Some (mkResult TCL_OK (Some (Z.of_nat k))
            (mkObj (bytes objPtr)
                   (IndexType (mkIndexRep t off (Z.of_nat k))))
            interp (fresh_records objPtr)).
Proof.
  intros T F C K N L.
  unfold Tcl_GetIndexFromObjStruct, Tcl_GetStringFromObj. rewrite C.
  destruct (bytes objPtr) as [|c s] eqn:B; [now elim K|].
  rewrite (scan_table_first m _ off es k) by assumption.
  rewrite Z.add_0_l, match_done_fresh, B. reflexivity.
Qed.

(** X2: [TCL_EXACT] changes the outcome only for a value without a record
    for the table whose non-empty string equals no entry and abbreviates
    exactly one: in every other case the call returns the same with any two
    flag words. *)
Theorem exact_flag_matters_for_unique_abbreviation_only (m : Mem)
    (fuel : nat) (interp : option Interp) (objPtr : Tcl_Obj) (t off : Z)
    (msg : string) (flags1 flags2 : Z) (es : list string) :
  table_at m t off es -> (List.length es < fuel)%nat ->
  cached_index objPtr t off <> None \/
  bytes objPtr = EmptyString \/
  In (bytes objPtr) es \/
  count_abbrev (bytes objPtr) es <> 1%nat ->
  Tcl_GetIndexFromObjStruct TCL_EXACT m fuel interp objPtr t off msg flags1
  = Tcl_GetIndexFromObjStruct TCL_EXACT m fuel interp objPtr t off msg flags2.
Proof.
  intros T F H.
  unfold Tcl_GetIndexFromObjStruct, Tcl_GetStringFromObj.
  destruct (cached_index objPtr t off) as [i|]; [reflexivity|].
  destruct (bytes objPtr) as [|c s] eqn:B; [reflexivity|].
  rewrite (scan_table_complete m _ off es) by assumption.
  destruct (scan_list (String c s) es 0 (-1) 0) as [j|idx n] eqn:SL;
    [reflexivity|].
  apply scan_list_end in SL as [NI Hn]. rewrite Z.add_0_l in Hn.
  destruct H as [H|[H|[H|H]]];
    [now elim H | discriminate H | contradiction |].
  assert ((n =? 1) = false) as -> by (apply Z.eqb_neq; lia).
  now rewrite !orb_true_r.
Qed.

(** X4: every successful look-up, from the record or from the scan, leaves
    the string of the value and the interpreter as they were, leaves the
    value holding the record (table, stride, index returned), and takes one
    record from [ckalloc] exactly when the value was no index object before:
    an index object has its record overwritten in place. *)
Theorem successful_lookup_effects (m : Mem) (fuel : nat)
    (interp : option Interp) (objPtr : Tcl_Obj) (t off : Z) (msg : string)
    (flags' : Z) (r : MatchResult) :
  Tcl_GetIndexFromObjStruct TCL_EXACT m fuel interp objPtr t off msg flags'
  = Some r ->
  code r = TCL_OK ->
  exists i,
    r = mkResult TCL_OK (Some i)
                 (mkObj (bytes objPtr) (IndexType (mkIndexRep t off i)))
                 interp (fresh_records objPtr).
Proof.
  intros E C.
  destruct (Match_success_shape m fuel interp objPtr t off msg flags' r E C)
    as (i & R & _).
  now exists i.
Qed.

(** What a successful look-up of a sound value returns, by the entries. *)
Lemma Match_success_entry (m : Mem) (fuel : nat)
    (interp : option Interp) (objPtr : Tcl_Obj) (t off : Z) (msg : string)
    (flags' : Z) (es : list string) (r : MatchResult) :
  table_at m t off es -> cache_sound m objPtr ->
  Tcl_GetIndexFromObjStruct TCL_EXACT m fuel interp objPtr t off msg flags'
  = Some r ->
  code r = TCL_OK ->
  exists k e,
    r = mkResult TCL_OK (Some (Z.of_nat k))
                 (mkObj (bytes objPtr)
                        (IndexType (mkIndexRep t off (Z.of_nat k))))
                 interp (fresh_records objPtr) /\
    (k < List.length es)%nat /\ nth_error es k = Some e /\
    (e = bytes objPtr \/ abbreviates (bytes objPtr) e = true) /\
    bytes objPtr <> EmptyString.
Proof.
  intros T S E C.
  destruct (Match_success_shape m fuel interp objPtr t off msg flags' r E C)
    as (i & Hr & H).
  assert (bytes objPtr <> EmptyString /\
          exists x, x = scan_list (bytes objPtr) es 0 (-1) 0 /\
                    scan_index x = Some i) as (K & x & SC & X).
  { destruct H as [H|H].
    - apply cached_index_hit in H as (r0 & R & <- & <- & <-).
      destruct (S r0 R) as (K & fuel' & x & SC & X).
      split; [exact K|]. exists x. split; [|exact X].
      now apply (scan_table_sound m _ _ es) in SC.
    - destruct H as (CI & x & SC & X). split.
      + intros B. revert E.
        unfold Tcl_GetIndexFromObjStruct, Tcl_GetStringFromObj.
        rewrite CI, B. intros E. apply match_error_spec in E as [E _].
        rewrite E in C. discriminate C.
      + exists x. split; [|exact X].
        now apply (scan_table_sound m _ _ es) in SC. }
  destruct (scan_index_entry _ es x i SC X) as (k & e & -> & N & A).
  exists k, e. repeat split; try assumption.
  apply nth_error_Some. congruence.
Qed.

(** X5: for a sound value, the index a successful look-up returns is the
    place of an entry of the table that the string of the value equals or is
    a strict prefix of; so it is within the table, and the string is not
    empty. *)
Theorem returned_index_names_entry (m : Mem) (fuel : nat)
    (interp : option Interp) (objPtr : Tcl_Obj) (t off : Z) (msg : string)
    (flags' : Z) (es : list string) (r : MatchResult) :
  table_at m t off es -> cache_sound m objPtr ->
  Tcl_GetIndexFromObjStruct TCL_EXACT m fuel interp objPtr t off msg flags'
  = Some r ->
  code r = TCL_OK ->
  exists k e,
    indexOut r = Some (Z.of_nat k) /\ (k < List.length es)%nat /\
    nth_error es k = Some e /\
    (e = bytes objPtr \/ abbreviates (bytes objPtr) e = true) /\
    bytes objPtr <> EmptyString.
Proof.
  intros T S E C.
  destruct (Match_success_entry m fuel interp objPtr t off msg flags' es r
              T S E C) as (k & e & -> & L & N & A & K).
  exists k, e. simpl. repeat split; assumption.
Qed.

(** Of a value without a record for the table only the string counts. *)
Lemma Match_record_irrelevant (m : Mem) (fuel : nat)
    (interp : option Interp) (objPtr : Tcl_Obj) (t off : Z) (msg : string)
    (flags' : Z) :
  cached_index objPtr t off = None ->
  option_map lookup_view
    (Tcl_GetIndexFromObjStruct TCL_EXACT m fuel interp objPtr t off msg
                               flags')
  = option_map lookup_view
      (Tcl_GetIndexFromObjStruct TCL_EXACT m fuel interp
                                 (mkObj (bytes objPtr) NoType) t off msg
                                 flags').
Proof.
  intros CI. unfold Tcl_GetIndexFromObjStruct, Tcl_GetStringFromObj.
  rewrite CI. unfold cached_index at 1. simpl internalRep. simpl bytes.
  assert (forall key n,
    option_map lookup_view
      (match_error m fuel interp objPtr key msg t off n)
    = option_map lookup_view
        (match_error m fuel interp (mkObj (bytes objPtr) NoType) key msg
                     t off n)) as ERR.
  { intros key n. unfold match_error. destruct interp as [ip|];
      [|reflexivity].
    destruct (error_message m fuel key msg t off n); reflexivity. }
  destruct (bytes objPtr) as [|c s]; [apply ERR|].
  destruct (scan_table m (String c s) off fuel t 0 (-1) 0) as [[i|i n]|];
    [now rewrite !match_done_fresh | | reflexivity].
  destruct (exact_requested TCL_EXACT flags' || negb (n =? 1));
    [apply ERR | now rewrite !match_done_fresh].
Qed.

(** X3: when [TCL_EXACT] is not asked for, the record never changes the
    answer: for a sound value the status, the index and the interpreter left
    by a look-up are those of the look-up of a value with the same string and
    no record. *)
Theorem cache_transparent_without_exact (m : Mem) (fuel : nat)
    (interp : option Interp) (objPtr : Tcl_Obj) (t off : Z) (msg : string)
    (flags' : Z) (es : list string) :
  table_at m t off es -> (List.length es < fuel)%nat ->
  cache_sound m objPtr ->
  exact_requested TCL_EXACT flags' = false ->
  option_map lookup_view
    (Tcl_GetIndexFromObjStruct TCL_EXACT m fuel interp objPtr t off msg
                               flags')
  = option_map lookup_view
      (Tcl_GetIndexFromObjStruct TCL_EXACT m fuel interp
                                 (mkObj (bytes objPtr) NoType) t off msg
                                 flags').
Proof.
  intros T F S X.
  destruct (cached_index objPtr t off) as [i|] eqn:CI;
    [|now apply Match_record_irrelevant].
  apply cached_index_hit in CI as (r0 & R & <- & <- & <-).
  destruct (S r0 R) as (K & fuel' & x & SC & SI).
  apply (scan_table_sound m _ _ es) in SC; [|assumption].
  rewrite (Match_uncached TCL_EXACT m fuel interp
             (mkObj (bytes objPtr) NoType) _ _ msg flags' es)
    by (assumption || reflexivity).
  simpl bytes. rewrite <- SC, X.
  unfold Tcl_GetIndexFromObjStruct.
  replace (cached_index objPtr (tablePtr r0) (offset r0))
    with (Some (index r0))
    by (symmetry; apply cached_index_hit; now exists r0).
  destruct x as [j|j n]; simpl in SI.
  - injection SI as ->. now rewrite match_done_fresh.
  - destruct (n =? 1); [|discriminate]. injection SI as ->.
    simpl. now rewrite match_done_fresh.
Qed.

(** X6: the canonical string looks up to the same index.  After a
    successful look-up of a sound value in a table without duplicates whose
    span (stride times number of cells after the first) fits an [int],
    [UpdateStringOfIndex] yields an entry whose own look-up in that table,
    as a value without a record and with any flags ([TCL_EXACT] too),
    succeeds with the index the first look-up returned. *)
Theorem canonical_string_round_trip (m : Mem) (fuel : nat)
    (interp : option Interp) (objPtr : Tcl_Obj) (t off : Z) (msg : string)
    (flags' : Z) (es : list string) (r : MatchResult) :
  table_at m t off es -> NoDup es ->
  in_int (off * Z.of_nat (List.length es)) ->
  cache_sound m objPtr ->
  Tcl_GetIndexFromObjStruct TCL_EXACT m fuel interp objPtr t off msg flags'
  = Some r ->
  code r = TCL_OK ->
  exists e,
    UpdateStringOfIndex m (objOut r)
    = Some (mkObj e (internalRep (objOut r))) /\
    forall fuel' interp' msg' flags'',
      (List.length es < fuel')%nat ->
      option_map lookup_answer
        (Tcl_GetIndexFromObjStruct TCL_EXACT m fuel' interp'
                                   (mkObj e NoType) t off msg' flags'')
      = Some (TCL_OK, indexOut r).
Proof.
  intros T D SP S E C.
  destruct (Match_success_entry m fuel interp objPtr t off msg flags' es r
              T S E C) as (k & e & -> & L & N & A & K).
  assert (in_int (off * Z.of_nat k)) as B
    by (apply (in_int_smaller off (List.length es)); [exact SP | lia]).
  exists e. simpl objOut. simpl internalRep. simpl indexOut. split.
  - unfold UpdateStringOfIndex, EXPAND_OF. simpl.
    now rewrite (table_at_nth m _ es _ _ _ T N B).
  - intros fuel' interp' msg' flags'' F.
    assert (e <> EmptyString) as NE.
    { destruct A as [->|A]; [exact K | now apply abbreviates_nonempty in A]. }
    unfold Tcl_GetIndexFromObjStruct, Tcl_GetStringFromObj. simpl.
    destruct e as [|c s]; [now elim NE|].
    rewrite (scan_table_exact m _ off es k) by (assumption || lia).
    now rewrite match_done_fresh.
Qed.

(** X10: the interpreter decides nothing.  Two calls that differ only in
    the interpreter passed (NULL or not) return the same status, index and
    value and take the same number of records; and when they fail with
    interpreters supplied they leave the same text in both, whatever results
    the interpreters held before: the message replaces the result. *)
Theorem interpreter_decides_nothing (m : Mem) (fuel : nat)
    (interp1 interp2 : option Interp) (objPtr : Tcl_Obj) (t off : Z)
    (msg : string) (flags' : Z) (r1 r2 : MatchResult) :
  Tcl_GetIndexFromObjStruct TCL_EXACT m fuel interp1 objPtr t off msg flags'
  = Some r1 ->
  Tcl_GetIndexFromObjStruct TCL_EXACT m fuel interp2 objPtr t off msg flags'
  = Some r2 ->
  code r1 = code r2 /\ indexOut r1 = indexOut r2 /\ objOut r1 = objOut r2 /\
  ckallocs r1 = ckallocs r2 /\
  (code r1 = TCL_ERROR ->
   forall ip1 ip2, interp1 = Some ip1 -> interp2 = Some ip2 ->
     exists text,
       interpOut r1 = Some (Tcl_SetObjResult ip1 text) /\
       interpOut r2 = Some (Tcl_SetObjResult ip2 text)).
Proof.
  unfold Tcl_GetIndexFromObjStruct, Tcl_GetStringFromObj.
  assert (forall key n,
    match_error m fuel interp1 objPtr key msg t off n = Some r1 ->
    match_error m fuel interp2 objPtr key msg t off n = Some r2 ->
    code r1 = code r2 /\ indexOut r1 = indexOut r2 /\ objOut r1 = objOut r2 /\
    ckallocs r1 = ckallocs r2 /\
    (code r1 = TCL_ERROR ->
     forall ip1 ip2, interp1 = Some ip1 -> interp2 = Some ip2 ->
       exists text,
         interpOut r1 = Some (Tcl_SetObjResult ip1 text) /\
         interpOut r2 = Some (Tcl_SetObjResult ip2 text))) as ERR.
  { intros key n E1 E2.
    apply match_error_spec in E1 as (C1 & I1 & O1 & A1 & P1).
    apply match_error_spec in E2 as (C2 & I2 & O2 & A2 & P2).
    repeat split; try congruence.
    intros _ ip1 ip2 -> ->.
    destruct P1 as (text & M1 & P1), P2 as (text' & M2 & P2).
    exists text. split; [exact P1|]. congruence. }
  assert (forall i,
    Some (match_done interp1 objPtr t off i) = Some r1 ->
    Some (match_done interp2 objPtr t off i) = Some r2 ->
    code r1 = code r2 /\ indexOut r1 = indexOut r2 /\ objOut r1 = objOut r2 /\
    ckallocs r1 = ckallocs r2 /\
    (code r1 = TCL_ERROR ->
     forall ip1 ip2, interp1 = Some ip1 -> interp2 = Some ip2 ->
       exists text,
         interpOut r1 = Some (Tcl_SetObjResult ip1 text) /\
         interpOut r2 = Some (Tcl_SetObjResult ip2 text))) as DONE.
  { intros i. rewrite !match_done_fresh. intros [= <-] [= <-]. simpl.
    repeat split. discriminate. }
  destruct (cached_index objPtr t off) as [i|].
  { intros [= <-] [= <-]. simpl. repeat split. discriminate. }
  destruct (bytes objPtr) as [|c s]; [apply ERR|].
  destruct (scan_table m (String c s) off fuel t 0 (-1) 0) as [[i|i n]|];
    [apply DONE | | discriminate].
  destruct (exact_requested TCL_EXACT flags' || negb (n =? 1));
    [apply ERR | apply DONE].
Qed.

(** X11: against an empty table (the sentinel alone) the error path starts
    its listing at the cell after the sentinel.  For a value without a record
    for the table and an interpreter, the call fails with "bad", lists no
    entry of the table, and lists instead, as alternatives, the strings
    [junk] that memory holds after the sentinel up to the next NULL. *)
Theorem empty_table_lists_cells_after_sentinel (m : Mem) (fuel : nat)
    (ip : Interp) (objPtr : Tcl_Obj) (t off : Z) (msg : string) (flags' : Z)
    (junk : list string) :
  table_at m t off [] ->
  table_at m (NEXT_ENTRY t off) off junk ->
  (List.length junk < fuel)%nat ->
  cached_index objPtr t off = None ->
  Tcl_GetIndexFromObjStruct TCL_EXACT m fuel (Some ip) objPtr t off msg flags'
  = Some (mkResult TCL_ERROR None objPtr
            (Some (Tcl_SetObjResult ip
                     ("bad " ++ msg ++ " " ++ dquote ++ bytes objPtr ++ dquote
                        ++ ": must be " ++ alternatives 0 junk))) 0).
Proof.
  intros T0 T F CI. simpl in T0.
  assert (forall key,
    match_error m fuel (Some ip) objPtr key msg t off 0
    = Some (mkResult TCL_ERROR None objPtr
              (Some (Tcl_SetObjResult ip
                       ("bad " ++ msg ++ " " ++ dquote ++ key ++ dquote
                          ++ ": must be " ++ alternatives 0 junk))) 0)) as ERR.
  { intros key. unfold match_error, error_message, STRING_AT.
    rewrite Z.mul_0_r. change (int_wrap 0) with 0. rewrite Z.add_0_r, T0.
    rewrite (error_entries_alternatives m off junk) by assumption.
    cbn [Tcl_AppendStringsToObj]. do 4 f_equal.
    cbn [String.append]. now rewrite !append_assoc. }
  unfold Tcl_GetIndexFromObjStruct, Tcl_GetStringFromObj. rewrite CI.
  destruct (bytes objPtr) as [|c s]; [apply ERR|].
  destruct fuel as [|fuel]; [lia|].
  cbn [scan_table]. rewrite T0. simpl negb. rewrite orb_true_r. apply ERR.
Qed.

(** X12: a look-up reads nothing but the table.  Two memories that hold
    the same entries at the table's address and stride give the same result
    (an empty table is excluded when a message is asked for). *)
Theorem lookup_reads_the_table_only (m1 m2 : Mem) (fuel : nat)
    (interp : option Interp) (objPtr : Tcl_Obj) (t off : Z) (msg : string)
    (flags' : Z) (es : list string) :
  table_at m1 t off es -> table_at m2 t off es ->
  (List.length es < fuel)%nat ->
  es <> [] \/ interp = None ->
  Tcl_GetIndexFromObjStruct TCL_EXACT m1 fuel interp objPtr t off msg flags'
  = Tcl_GetIndexFromObjStruct TCL_EXACT m2 fuel interp objPtr t off msg
                              flags'.
Proof.
  intros T1 T2 F N.
  assert (forall key n,
    match_error m1 fuel interp objPtr key msg t off n
    = match_error m2 fuel interp objPtr key msg t off n) as ERR.
  { intros key n. unfold match_error. destruct interp as [ip|];
      [|reflexivity].
    destruct N as [N|N]; [|discriminate].
    now rewrite !(error_message_text _ fuel key msg t off n es)
      by assumption. }
  unfold Tcl_GetIndexFromObjStruct, Tcl_GetStringFromObj.
  destruct (cached_index objPtr t off) as [i|]; [reflexivity|].
  destruct (bytes objPtr) as [|c s]; [apply ERR|].
  rewrite !(scan_table_complete _ _ off es) by assumption.
  destruct (scan_list (String c s) es 0 (-1) 0) as [i|i n]; [reflexivity|].
  now rewrite ERR.
Qed.

(** X9: the duplicate made by [DupIndex] holds a record equal to the
    source's: a look-up of the duplicate in the table and stride of that
    record returns the source's index without reading memory, and
    [UpdateStringOfIndex] renders both alike. *)
Theorem duplicate_answers_like_source (srcPtr dupPtr dupPtr' : Tcl_Obj)
    (r : IndexRep) :
  internalRep srcPtr = IndexType r ->
  DupIndex srcPtr dupPtr = Some dupPtr' ->
  dupPtr' = mkObj (bytes dupPtr) (IndexType r) /\
  (forall m fuel interp msg flags',
      Tcl_GetIndexFromObjStruct TCL_EXACT m fuel interp dupPtr'
                                (tablePtr r) (offset r) msg flags'
      = Some (mkResult TCL_OK (Some (index r)) dupPtr' interp 0)) /\
  (forall m,
      option_map bytes (UpdateStringOfIndex m dupPtr')
      = option_map bytes (UpdateStringOfIndex m srcPtr)).
Proof.
  unfold DupIndex. intros R. rewrite R. intros [= <-].
  assert (mkIndexRep (tablePtr r) (offset r) (index r) = r) as ->
    by now destruct r.
  split; [reflexivity|]. split.
  - intros m fuel interp msg flags'. unfold Tcl_GetIndexFromObjStruct.
    unfold cached_index. simpl. now rewrite !Z.eqb_refl.
  - intros m. unfold UpdateStringOfIndex. simpl. rewrite R.
    destruct (EXPAND_OF m r); reflexivity.
Qed.

(** X17: the two entry points share their records.  A success of
    [Tcl_GetIndexFromObj] leaves the record (table, size of a pointer, index);
    [Tcl_GetIndexFromObjStruct] then answers from it, without reading memory,
    when it is given that table and the size of a pointer as stride, and with
    any other stride the record is not honoured. *)
Theorem entry_points_share_records (sizeof_char_ptr : Z) (m : Mem)
    (fuel : nat) (interp : option Interp) (objPtr : Tcl_Obj) (t : Z)
    (msg : string) (flags' : Z) (r : MatchResult) :
  Tcl_GetIndexFromObj TCL_EXACT sizeof_char_ptr m fuel interp objPtr t msg
                      flags' = Some r ->
  code r = TCL_OK ->
  exists i,
    r = mkResult TCL_OK (Some i)
                 (mkObj (bytes objPtr)
                        (IndexType (mkIndexRep t sizeof_char_ptr i)))
                 interp (fresh_records objPtr) /\
    (forall m' fuel' interp' msg' flags'',
        Tcl_GetIndexFromObjStruct TCL_EXACT m' fuel' interp' (objOut r) t
                                  sizeof_char_ptr msg' flags''
        = Some (mkResult TCL_OK (Some i) (objOut r) interp' 0)) /\
    (forall off, off <> sizeof_char_ptr ->
                 cached_index (objOut r) t off = None).
Proof.
  intros E C.
  assert (Tcl_GetIndexFromObjStruct TCL_EXACT m fuel interp objPtr t
                                    sizeof_char_ptr msg flags' = Some r)
    as E'.
  { revert E. unfold Tcl_GetIndexFromObj, Tcl_GetIndexFromObjStruct.
    now destruct (cached_index objPtr t sizeof_char_ptr). }
  destruct (Match_success_shape m fuel interp objPtr t sizeof_char_ptr msg
              flags' r E' C) as (i & -> & _).
  exists i. split; [reflexivity|]. simpl objOut. split.
  - intros m' fuel' interp' msg' flags''.
    unfold Tcl_GetIndexFromObjStruct, cached_index. simpl.
    now rewrite !Z.eqb_refl.
  - intros off NE. unfold cached_index. simpl.
    rewrite Z.eqb_refl. simpl.
    destruct (Z.eqb_spec sizeof_char_ptr off); [now elim NE | reflexivity].
Qed.

End FurtherLookup.

(** * Further properties of the usage message *)

Section FurtherUsage.

Variable TCL_EXACT : Z.
Variable INTERP_ALTERNATE_WRONG_ARGS : Z.
Variable AVOID_HACKS_FOR_ITCL : bool.
Variable Tcl_ScanCountedElement : string -> Z * Z.
Variable Tcl_ConvertCountedElement : string -> Z -> string.

(** The tokens depend on the interpreter through its rewrite context
    only. *)
Lemma usage_tokens_rewrite (m : Mem) (ip ip' : Interp)
    (objv : list Tcl_Obj) :
  ensembleRewrite ip' = ensembleRewrite ip ->
  usage_tokens AVOID_HACKS_FOR_ITCL Tcl_ScanCountedElement
               Tcl_ConvertCountedElement m ip' objv
  = usage_tokens AVOID_HACKS_FOR_ITCL Tcl_ScanCountedElement
                 Tcl_ConvertCountedElement m ip objv.
Proof.
  intros E. unfold usage_tokens, rewritten. now rewrite E.
Qed.

(** X13: the alternate form chains usage messages.  After a first call
    made without the alternate flag, a caller that sets the flag and calls
    again gets the first message, then the word [or] between spaces, then
    an opening quote, the tokens and message of the second call and the
    closing quote; the call itself never changes the flags. *)
Theorem alternate_form_chains (m : Mem) (ip : Interp)
    (objv1 objv2 : list Tcl_Obj) (message1 message2 : option string) :
  INTERP_ALTERNATE_WRONG_ARGS <> 0 ->
  Z.land (flags ip) INTERP_ALTERNATE_WRONG_ARGS = 0 ->
  sourceObjs (ensembleRewrite ip) = None \/
  0 <= numInsertedObjs (ensembleRewrite ip) ->
  let wrong :=
    Tcl_WrongNumArgs INTERP_ALTERNATE_WRONG_ARGS AVOID_HACKS_FOR_ITCL
                     Tcl_ScanCountedElement Tcl_ConvertCountedElement in
  let body objv message :=
    String.concat " "
      (usage_tokens AVOID_HACKS_FOR_ITCL Tcl_ScanCountedElement
                    Tcl_ConvertCountedElement m ip objv
         ++ message_piece message) in
  flags (wrong m ip objv1 message1) = flags ip /\
  objResult
    (wrong m (set_flag (wrong m ip objv1 message1)
                       INTERP_ALTERNATE_WRONG_ARGS)
           objv2 message2)
  = ("wrong # args: should be " ++ dquote ++ body objv1 message1 ++ dquote)
      ++ " or " ++ dquote ++ body objv2 message2 ++ dquote.
Proof.
  intros NZ A P wrong body. unfold wrong.
  rewrite (Tcl_WrongNumArgs_text _ _ _ _ m ip objv1 message1) by assumption.
  split; [reflexivity|].
  rewrite Tcl_WrongNumArgs_text by exact P.
  cbn [Tcl_SetObjResult objResult].
  set (text1 := usage_text INTERP_ALTERNATE_WRONG_ARGS AVOID_HACKS_FOR_ITCL
                  Tcl_ScanCountedElement Tcl_ConvertCountedElement m ip
                  objv1 message1).
  unfold usage_text, usage_seed.
  cbn [set_flag Tcl_SetObjResult flags objResult].
  rewrite Z.land_lor_distr_l, A, Z.land_diag, Z.lor_0_l.
  destruct (Z.eqb_spec INTERP_ALTERNATE_WRONG_ARGS 0) as [Z0|_];
    [contradiction|].
  cbn [negb]. rewrite (usage_tokens_rewrite m ip) by reflexivity.
  subst text1. unfold usage_text, usage_seed. rewrite A. cbn [Z.eqb negb].
  unfold body. now rewrite !append_assoc.
Qed.

(** X14: a keyword matched by an abbreviation is shown in full.  When a
    look-up of a sound value succeeded in a table whose span fits an [int],
    the usage message built (without a rewrite context) from arguments that
    start with that value starts with the table entry at the index returned,
    unquoted, whatever the value's string is. *)
Theorem matched_keyword_shown_in_full (m : Mem) (fuel : nat)
    (interp : option Interp) (objPtr : Tcl_Obj) (t off : Z) (msg : string)
    (flags' : Z) (es : list string) (r : MatchResult) (ip : Interp)
    (rest : list Tcl_Obj) (message : option string) :
  table_at m t off es ->
  in_int (off * Z.of_nat (List.length es)) ->
  cache_sound m objPtr ->
  Tcl_GetIndexFromObjStruct TCL_EXACT m fuel interp objPtr t off msg flags'
  = Some r ->
  code r = TCL_OK ->
  sourceObjs (ensembleRewrite ip) = None ->
  exists k e,
    indexOut r = Some (Z.of_nat k) /\ nth_error es k = Some e /\
    Tcl_WrongNumArgs INTERP_ALTERNATE_WRONG_ARGS AVOID_HACKS_FOR_ITCL
                     Tcl_ScanCountedElement Tcl_ConvertCountedElement
                     m ip (objOut r :: rest) message
    = Tcl_SetObjResult ip
        (usage_seed INTERP_ALTERNATE_WRONG_ARGS ip
           ++ String.concat " "
                (e :: tokens_from false
                        (map (arg_token AVOID_HACKS_FOR_ITCL
                                        Tcl_ScanCountedElement
                                        Tcl_ConvertCountedElement m) rest)
                   ++ message_piece message)
           ++ dquote).
Proof.
  intros T SP S E C SO.
  destruct (Match_success_entry TCL_EXACT m fuel interp objPtr t off msg
              flags' es r T S E C) as (k & e & -> & L & N & A & K).
  assert (in_int (off * Z.of_nat k)) as B
    by (apply (in_int_smaller off (List.length es)); [exact SP | lia]).
  exists k, e. split; [reflexivity|]. split; [exact N|].
  rewrite Tcl_WrongNumArgs_text by now left.
  unfold usage_text, usage_tokens, rewritten. rewrite SO.
  cbn [fst snd map app tokens_from objOut].
  unfold arg_token at 1. cbn [internalRep]. unfold canonical, EXPAND_OF.
  cbn [tablePtr offset index].
  now rewrite (table_at_nth m _ es _ _ _ T N B).
Qed.

Lemma word_token_bytes (sources : list Tcl_Obj) :
  map (word_token AVOID_HACKS_FOR_ITCL Tcl_ScanCountedElement
                  Tcl_ConvertCountedElement) sources
  = map (fun (b : string) (first : bool) =>
           if first && negb AVOID_HACKS_FOR_ITCL then b
           else list_element Tcl_ScanCountedElement
                             Tcl_ConvertCountedElement b)
        (map bytes sources).
Proof. now rewrite map_map. Qed.

(** X15: the words substituted from the ensemble's invocation are emitted
    by their string form alone.  Two lists of source words with the same
    strings give the same message, whatever records the words carry: a
    keyword among them is shown as it was typed, not expanded. *)
Theorem source_words_emitted_by_string (m : Mem) (ip : Interp)
    (objv : list Tcl_Obj) (message : option string)
    (sources sources' : list Tcl_Obj) :
  map bytes sources = map bytes sources' ->
  0 <= numInsertedObjs (ensembleRewrite ip) ->
  objResult
    (Tcl_WrongNumArgs INTERP_ALTERNATE_WRONG_ARGS AVOID_HACKS_FOR_ITCL
                      Tcl_ScanCountedElement Tcl_ConvertCountedElement
                      m (with_sources ip sources) objv message)
  = objResult
      (Tcl_WrongNumArgs INTERP_ALTERNATE_WRONG_ARGS AVOID_HACKS_FOR_ITCL
                        Tcl_ScanCountedElement Tcl_ConvertCountedElement
                        m (with_sources ip sources') objv message).
Proof.
  intros B P.
  rewrite !Tcl_WrongNumArgs_text by (right; exact P).
  cbn [Tcl_SetObjResult objResult].
  unfold usage_text, usage_seed, usage_tokens, rewritten, with_sources.
  cbn [flags objResult ensembleRewrite sourceObjs numInsertedObjs].
  destruct (numInsertedObjs (ensembleRewrite ip)
            <=? Z.of_nat (List.length objv)); [|reflexivity].
  cbn [fst snd]. now rewrite !word_token_bytes, B.
Qed.


(** X18: the usage message reads memory through the records of the
    arguments it shows, and nowhere else.  Two memories that hold the same
    string (or NULL) at the cell selected by the record of every index object
    left in the prefix give the same message. *)
Theorem usage_message_reads_selected_entries_only (m1 m2 : Mem)
    (ip : Interp) (objv : list Tcl_Obj) (message : option string) :
  sourceObjs (ensembleRewrite ip) = None \/
  0 <= numInsertedObjs (ensembleRewrite ip) ->
  (forall arg r, In arg (snd (rewritten ip objv)) ->
                 internalRep arg = IndexType r ->
                 EXPAND_OF m1 r = EXPAND_OF m2 r) ->
  Tcl_WrongNumArgs INTERP_ALTERNATE_WRONG_ARGS AVOID_HACKS_FOR_ITCL
                   Tcl_ScanCountedElement Tcl_ConvertCountedElement
                   m1 ip objv message
  = Tcl_WrongNumArgs INTERP_ALTERNATE_WRONG_ARGS AVOID_HACKS_FOR_ITCL
                     Tcl_ScanCountedElement Tcl_ConvertCountedElement
                     m2 ip objv message.
Proof.
  intros P H.
  rewrite !Tcl_WrongNumArgs_text by exact P.
  unfold usage_text, usage_tokens. do 7 f_equal.
  apply map_ext_in. intros arg IN.
  unfold arg_token, canonical.
  destruct (internalRep arg) as [| |r] eqn:R; try reflexivity.
  now rewrite (H arg r IN R).
Qed.

End FurtherUsage.

(** * Worked examples of the further properties *)

Lemma table_at_mem_of_table_duplicates :
  table_at duplicates_mem 4096 8 duplicates.
Proof. repeat split. Qed.

Lemma NoDup_commands : NoDup commands.
Proof.
  repeat constructor; simpl; intuition discriminate.
Qed.

(** "start" is entry 0 and entry 2 of [duplicates]. *)
Lemma first_equal_entry_wins_witness :
  Tcl_GetIndexFromObjStruct 1 duplicates_mem 1 None (mkObj "start" NoType)
                            4096 8 "action" 0
  = Some (mkResult TCL_OK (Some 0)
            (mkObj "start" (IndexType (mkIndexRep 4096 8 0))) None 1).
Proof.
  apply (first_equal_entry_wins 1 duplicates_mem 1 None
           (mkObj "start" NoType) 4096 8 "action" 0 duplicates 0).
  - exact table_at_mem_of_table_duplicates.
  - lia.
  - reflexivity.
  - discriminate.
  - reflexivity.
  - intros j H. lia.
Defined.

(** "ab" abbreviates two entries: it fails with or without [TCL_EXACT]. *)
Lemma exact_flag_matters_for_unique_abbreviation_only_witness :
  Tcl_GetIndexFromObjStruct 1 ambiguous_mem 4 (Some plain_interp)
                            (mkObj "ab" NoType) 4096 8 "option" 0
  = Tcl_GetIndexFromObjStruct 1 ambiguous_mem 4 (Some plain_interp)
                              (mkObj "ab" NoType) 4096 8 "option" 1.
Proof.
  apply (exact_flag_matters_for_unique_abbreviation_only 1 ambiguous_mem 4
           (Some plain_interp) (mkObj "ab" NoType) 4096 8 "option" 0 1
           ambiguous_table).
  - exact table_at_mem_of_table_ambiguous.
  - simpl. lia.
  - right. right. right. discriminate.
Defined.

(** The value that matched "att" answers as "att" itself does. *)
Lemma cache_transparent_without_exact_witness :
  option_map lookup_view
    (Tcl_GetIndexFromObjStruct 1 commands_mem 3 None att_matched 4096 8
                               "option" 0)
  = option_map lookup_view
      (Tcl_GetIndexFromObjStruct 1 commands_mem 3 None
                                 (mkObj (bytes att_matched) NoType) 4096 8
                                 "option" 0).
Proof.
  apply (cache_transparent_without_exact 1 commands_mem 3 None att_matched
           4096 8 "option" 0 commands).
  - exact table_at_mem_of_table_commands.
  - simpl. lia.
  - exact cache_sound_att_matched.
  - reflexivity.
Defined.

Lemma successful_lookup_effects_witness :
  exists i,
    mkResult TCL_OK (Some 0) att_matched None 1
    = mkResult TCL_OK (Some i)
               (mkObj (bytes att_value) (IndexType (mkIndexRep 4096 8 i)))
               None (fresh_records att_value).
Proof.
  apply (successful_lookup_effects 1 commands_mem 3 None att_value 4096 8
           "option" 0); reflexivity.
Defined.

Lemma returned_index_names_entry_witness :
  exists k e,
    indexOut (mkResult TCL_OK (Some 0) att_matched None 1)
    = Some (Z.of_nat k) /\
    (k < List.length commands)%nat /\ nth_error commands k = Some e /\
    (e = bytes att_value \/ abbreviates (bytes att_value) e = true) /\
    bytes att_value <> EmptyString.
Proof.
  apply (returned_index_names_entry 1 commands_mem 3 None att_value 4096 8
           "option" 0 commands).
  - exact table_at_mem_of_table_commands.
  - apply cache_sound_fresh.
  - reflexivity.
  - reflexivity.
Defined.

(** "att" gives index 0, index 0 is rendered "attach", and "attach" gives
    index 0. *)
Lemma canonical_string_round_trip_witness :
  exists e,
    UpdateStringOfIndex commands_mem att_matched
    = Some (mkObj e (internalRep att_matched)) /\
    forall fuel' interp' msg' flags'',
      (List.length commands < fuel')%nat ->
      option_map lookup_answer
        (Tcl_GetIndexFromObjStruct 1 commands_mem fuel' interp'
                                   (mkObj e NoType) 4096 8 msg' flags'')
      = Some (TCL_OK, Some 0).
Proof.
  apply (canonical_string_round_trip 1 commands_mem 3 None att_value 4096 8
           "option" 0 commands (mkResult TCL_OK (Some 0) att_matched None 1)).
  - exact table_at_mem_of_table_commands.
  - exact NoDup_commands.
  - unfold in_int. simpl. lia.
  - apply cache_sound_fresh.
  - reflexivity.
  - reflexivity.
Defined.

Lemma Tcl_GetIndexFromObjStruct_sound_witness :
  cache_sound commands_mem
    (objOut (mkResult TCL_OK (Some 0) att_matched None 1)).
Proof.
  apply (Tcl_GetIndexFromObjStruct_sound 1 commands_mem 3 None att_value
           4096 8 "option" 0).
  - apply cache_sound_fresh.
  - reflexivity.
Defined.

Lemma UpdateStringOfIndex_sound_witness :
  cache_sound commands_mem (mkObj "attach" (IndexType (mkIndexRep 4096 8 0))).
Proof.
  apply (UpdateStringOfIndex_sound commands_mem att_matched
           (mkObj "attach" (IndexType (mkIndexRep 4096 8 0)))
           (mkIndexRep 4096 8 0) commands).
  - reflexivity.
  - exact table_at_mem_of_table_commands.
  - exact NoDup_commands.
  - unfold in_int. simpl. lia.
  - exact cache_sound_att_matched.
  - reflexivity.
Defined.

Lemma duplicate_answers_like_source_witness :
  mkObj "att" (IndexType (mkIndexRep 4096 8 0))
  = mkObj (bytes att_value) (IndexType (mkIndexRep 4096 8 0)) /\
  (forall m fuel interp msg flags',
      Tcl_GetIndexFromObjStruct 1 m fuel interp
        (mkObj "att" (IndexType (mkIndexRep 4096 8 0)))
        (tablePtr (mkIndexRep 4096 8 0)) (offset (mkIndexRep 4096 8 0))
        msg flags'
      = Some (mkResult TCL_OK (Some (index (mkIndexRep 4096 8 0)))
                (mkObj "att" (IndexType (mkIndexRep 4096 8 0))) interp 0)) /\
  (forall m,
      option_map bytes
        (UpdateStringOfIndex m
           (mkObj "att" (IndexType (mkIndexRep 4096 8 0))))
      = option_map bytes (UpdateStringOfIndex m att_matched)).
Proof.
  apply (duplicate_answers_like_source 1 att_matched att_value).
  - reflexivity.
  - reflexivity.
Defined.

(** "zz" fails in [commands]: the text left is the same in an interpreter
    with an empty result and in one with an earlier result. *)
Lemma interpreter_decides_nothing_witness :
  exists r1 r2,
    Tcl_GetIndexFromObjStruct 1 commands_mem 3 (Some plain_interp)
                              (mkObj "zz" NoType) 4096 8 "option" 0
    = Some r1 /\
    Tcl_GetIndexFromObjStruct 1 commands_mem 3 (Some used_interp)
                              (mkObj "zz" NoType) 4096 8 "option" 0
    = Some r2 /\
    code r1 = code r2 /\ indexOut r1 = indexOut r2 /\
    objOut r1 = objOut r2 /\ ckallocs r1 = ckallocs r2 /\
    (code r1 = TCL_ERROR ->
     forall ip1 ip2, Some plain_interp = Some ip1 ->
                     Some used_interp = Some ip2 ->
       exists text,
         interpOut r1 = Some (Tcl_SetObjResult ip1 text) /\
         interpOut r2 = Some (Tcl_SetObjResult ip2 text)).
Proof.
  eexists. eexists.
  split; [vm_compute; reflexivity|]. split; [vm_compute; reflexivity|].
  apply (interpreter_decides_nothing 1 commands_mem 3 (Some plain_interp)
           (Some used_interp) (mkObj "zz" NoType) 4096 8 "option" 0);
    reflexivity.
Defined.

(** The cell at 4096 holds NULL and the cells after it hold "left" and
    "right": the message lists them. *)
Lemma empty_table_lists_cells_after_sentinel_witness :
  Tcl_GetIndexFromObjStruct 1 overread_mem 3 (Some plain_interp)
                            (mkObj "x" NoType) 4096 8 "option" 0
  = Some (mkResult TCL_ERROR None (mkObj "x" NoType)
            (Some (Tcl_SetObjResult plain_interp
                     ("bad option " ++ dquote ++ "x" ++ dquote
                        ++ ": must be , left, or right"))) 0).
Proof.
  apply (empty_table_lists_cells_after_sentinel 1 overread_mem 3
           plain_interp (mkObj "x" NoType) 4096 8 "option" 0 after_sentinel).
  - reflexivity.
  - repeat split.
  - simpl. lia.
  - reflexivity.
Defined.

Lemma lookup_reads_the_table_only_witness :
  Tcl_GetIndexFromObjStruct 1 commands_mem 3 (Some plain_interp)
                            (mkObj "zz" NoType) 4096 8 "option" 0
  = Tcl_GetIndexFromObjStruct 1 commands_mem_more 3 (Some plain_interp)
                              (mkObj "zz" NoType) 4096 8 "option" 0.
Proof.
  apply (lookup_reads_the_table_only 1 commands_mem commands_mem_more 3
           (Some plain_interp) (mkObj "zz" NoType) 4096 8 "option" 0
           commands).
  - exact table_at_mem_of_table_commands.
  - repeat split.
  - simpl. lia.
  - left. discriminate.
Defined.

(** Two usage messages chained by the alternate form. *)
Lemma alternate_form_chains_witness :
  flags (Tcl_WrongNumArgs 1024 false sample_scan sample_convert commands_mem
                          plain_interp [mkObj "foo" NoType] None)
  = flags plain_interp /\
  objResult
    (Tcl_WrongNumArgs 1024 false sample_scan sample_convert commands_mem
       (set_flag
          (Tcl_WrongNumArgs 1024 false sample_scan sample_convert
                            commands_mem plain_interp [mkObj "foo" NoType]
                            None)
          1024)
       [mkObj "foo" NoType; mkObj "bar" NoType] (Some "?arg?"))
  = ("wrong # args: should be " ++ dquote ++ "foo" ++ dquote)
      ++ " or " ++ dquote ++ "foo bar ?arg?" ++ dquote.
Proof.
  apply (alternate_form_chains 1024 false sample_scan sample_convert
           commands_mem plain_interp [mkObj "foo" NoType]
           [mkObj "foo" NoType; mkObj "bar" NoType] None (Some "?arg?")).
  - discriminate.
  - reflexivity.
  - left. reflexivity.
Defined.

(** The value typed "att" is shown as "attach". *)
Lemma matched_keyword_shown_in_full_witness :
  exists k e,
    indexOut (mkResult TCL_OK (Some 0) att_matched None 1)
    = Some (Z.of_nat k) /\
    nth_error commands k = Some e /\
    Tcl_WrongNumArgs 1024 false sample_scan sample_convert commands_mem
                     plain_interp
                     [objOut (mkResult TCL_OK (Some 0) att_matched None 1);
                      mkObj "a b" NoType]
                     (Some "?arg?")
    = Tcl_SetObjResult plain_interp
        (usage_seed 1024 plain_interp
           ++ String.concat " "
                (e :: tokens_from false
                        (map (arg_token false sample_scan sample_convert
                                        commands_mem)
                             [mkObj "a b" NoType])
                   ++ message_piece (Some "?arg?"))
           ++ dquote).
Proof.
  apply (matched_keyword_shown_in_full 1 1024 false sample_scan
           sample_convert commands_mem 3 None att_value 4096 8 "option" 0
           commands (mkResult TCL_OK (Some 0) att_matched None 1)
           plain_interp [mkObj "a b" NoType] (Some "?arg?")).
  - exact table_at_mem_of_table_commands.
  - unfold in_int. simpl. lia.
  - apply cache_sound_fresh.
  - reflexivity.
  - reflexivity.
  - reflexivity.
Defined.

(** A source word typed "att" is shown as "att", with or without its
    record. *)
Lemma source_words_emitted_by_string_witness :
  objResult
    (Tcl_WrongNumArgs 1024 false sample_scan sample_convert commands_mem
                      (with_sources ensemble_interp [att_matched])
                      [mkObj "impl" NoType] None)
  = objResult
      (Tcl_WrongNumArgs 1024 false sample_scan sample_convert commands_mem
                        (with_sources ensemble_interp [att_value])
                        [mkObj "impl" NoType] None).
Proof.
  apply (source_words_emitted_by_string 1024 false sample_scan sample_convert
           commands_mem ensemble_interp [mkObj "impl" NoType] None
           [att_matched] [att_value]).
  - reflexivity.
  - simpl. lia.
Defined.


(** A record written by [Tcl_GetIndexFromObj] (stride 8, the size of a
    pointer) answers the [Struct] form at stride 8 and not at stride 16. *)
Lemma entry_points_share_records_witness :
  exists i,
    mkResult TCL_OK (Some 0) att_matched None 1
    = mkResult TCL_OK (Some i)
               (mkObj (bytes att_value) (IndexType (mkIndexRep 4096 8 i)))
               None (fresh_records att_value) /\
    (forall m' fuel' interp' msg' flags'',
        Tcl_GetIndexFromObjStruct 1 m' fuel' interp'
          (objOut (mkResult TCL_OK (Some 0) att_matched None 1)) 4096 8
          msg' flags''
        = Some (mkResult TCL_OK (Some i)
                  (objOut (mkResult TCL_OK (Some 0) att_matched None 1))
                  interp' 0)) /\
    (forall off, off <> 8 ->
       cached_index (objOut (mkResult TCL_OK (Some 0) att_matched None 1))
                    4096 off = None).
Proof.
  apply (entry_points_share_records 1 8 commands_mem 3 None att_value 4096
           "option" 0); reflexivity.
Defined.

(** The message for the value that matched "att" is the same in the two
    memories that hold [commands]. *)
Lemma usage_message_reads_selected_entries_only_witness :
  Tcl_WrongNumArgs 1024 false sample_scan sample_convert commands_mem
                   plain_interp [att_matched; mkObj "a b" NoType] None
  = Tcl_WrongNumArgs 1024 false sample_scan sample_convert commands_mem_more
                     plain_interp [att_matched; mkObj "a b" NoType] None.
Proof.
  apply (usage_message_reads_selected_entries_only 1024 false sample_scan
           sample_convert commands_mem commands_mem_more plain_interp
           [att_matched; mkObj "a b" NoType] None).
  - left. reflexivity.
  - intros arg r [<-|[<-|[]]] R; [|discriminate R].
    injection R as <-. reflexivity.
Defined.
